(** * docx2python: context extraction ([docx2python/docx_context.py])

    A shallow embedding of [collect_numFmts], [collect_rels],
    [collect_docProps], [get_context] and [pull_image_files], followed by
    the properties established about them.

    Conventions of the embedding.
    - A Python [str] is a [string]; its characters are read as code points
      below 256.
    - A Python [dict] is an association list without repeated keys, in
      insertion order ([PyDict]): [d[k] = v] replaces in place or appends,
      [d[k]] raises [KeyError] on a missing key.
    - An exception is a value of [exn]; a computation that may raise is a
      [result].
    - [os.path] is [posixpath].
    - The XML parser is an external collaborator: an archive member is
      represented by what [ElementTree.fromstring] makes of its bytes
      ([Bytes]).
    - The helpers imported from [attribute_dicts] and [namespace] are not
      part of this file's source; the functions that call them take them
      as section variables. *)

From Stdlib Require Import String Ascii List Bool Arith ZArith Lia.
From Stdlib Require Import DecimalString DecimalNat.
Import ListNotations.
Local Open Scope string_scope.
Local Open Scope list_scope.

Set Implicit Arguments.

(* ===================================================================== *)
(** ** Exceptions and the error monad *)
(* ===================================================================== *)

Inductive exn : Type :=
| KeyError
| AttributeError
| TypeError
| ParseError.

Inductive result (A : Type) : Type :=
| Ok (a : A)
| Raise (e : exn).

Arguments Ok {A} a.
Arguments Raise {A} e.

Definition bind {A B : Type} (m : result A) (f : A -> result B) : result B :=
  match m with
  | Ok a => f a
  | Raise e => Raise e
  end.

Notation "x <- m ;; k" := (bind m (fun x => k))
  (at level 61, m at next level, right associativity).

Definition is_ok {A : Type} (m : result A) : bool :=
  match m with Ok _ => true | Raise _ => false end.

(** [obj.attr] / [obj[...]] on a value that may be [None]. *)
Definition not_None {A : Type} (o : option A) : result A :=
  match o with
  | Some a => Ok a
  | None => Raise AttributeError
  end.

(* ===================================================================== *)
(** ** Python dictionaries *)
(* ===================================================================== *)

Module PyDict.
Section Dict.
Variables (K V : Type).
Variable eqb : K -> K -> bool.

Definition t := list (K * V).

Fixpoint get (d : t) (k : K) : option V :=
  match d with
  | [] => None
  | (k', v) :: d' => if eqb k k' then Some v else get d' k
  end.

(** [d[k]] *)
Definition getitem (d : t) (k : K) : result V :=
  match get d k with
  | Some v => Ok v
  | None => Raise KeyError
  end.

(** [d[k] = v]: an existing key keeps its position. *)
Fixpoint setitem (d : t) (k : K) (v : V) : t :=
  match d with
  | [] => [(k, v)]
  | (k', v') :: d' =>
      if eqb k k' then (k', v) :: d' else (k', v') :: setitem d' k v
  end.

Definition keys (d : t) : list K := map fst d.
Definition values (d : t) : list V := map snd d.
Definition items (d : t) : list (K * V) := d.

End Dict.
End PyDict.

(** Dictionaries keyed by [str]. *)
Definition dict (V : Type) : Type := PyDict.t string V.
Definition dict_get {V} (d : dict V) (k : string) : option V :=
  PyDict.get String.eqb d k.
Definition getitem {V} (d : dict V) (k : string) : result V :=
  PyDict.getitem String.eqb d k.
Definition setitem {V} (d : dict V) (k : string) (v : V) : dict V :=
  PyDict.setitem String.eqb d k v.
Definition keys {V} (d : dict V) : list string := PyDict.keys d.

(* ===================================================================== *)
(** ** Strings and [posixpath] *)
(* ===================================================================== *)

Definition slash : ascii := "/"%char.

(** [p[:p.rfind("/") + 1]] and [p[p.rfind("/") + 1:]] *)
Fixpoint rsplit_slash (p : string) : string * string :=
  match p with
  | EmptyString => (EmptyString, EmptyString)
  | String c p' =>
      let '(head, tail) := rsplit_slash p' in
      if (Ascii.eqb c slash || negb (String.eqb head EmptyString))%bool
      then (String c head, tail)
      else (EmptyString, String c tail)
  end.

Fixpoint all_slashes (s : string) : bool :=
  match s with
  | EmptyString => true
  | String c s' => (Ascii.eqb c slash && all_slashes s')%bool
  end.

(** [s.rstrip("/")] *)
Fixpoint rstrip_slash (s : string) : string :=
  match s with
  | EmptyString => EmptyString
  | String c s' =>
      if all_slashes (String c s') then EmptyString
      else String c (rstrip_slash s')
  end.

(** [os.path.dirname] *)
Definition dirname (p : string) : string :=
  let head := fst (rsplit_slash p) in
  if (negb (String.eqb head EmptyString) && negb (all_slashes head))%bool
  then rstrip_slash head
  else head.

(** [os.path.basename] *)
Definition basename (p : string) : string := snd (rsplit_slash p).

(** [os.path.join(a, b)] *)
Definition path_join (a b : string) : string :=
  match b with
  | String c _ =>
      if Ascii.eqb c slash then b
      else if (String.eqb a EmptyString
               || String.eqb (basename a) EmptyString)%bool
           then a ++ b
           else a ++ "/" ++ b
  | EmptyString =>
      if (String.eqb a EmptyString
          || String.eqb (basename a) EmptyString)%bool
      then a else a ++ "/"
  end.

(** [x[-n:]] *)
Definition last_chars (n : nat) (x : string) : string :=
  substring (String.length x - n) n x.

(* ===================================================================== *)
(** ** Monadic iteration *)
(* ===================================================================== *)

Fixpoint mapM {A B : Type} (f : A -> result B) (l : list A) : result (list B) :=
  match l with
  | [] => Ok []
  | a :: l' =>
      b <- f a ;;
      bs <- mapM f l' ;;
      Ok (b :: bs)
  end.

(** [for k, v in kvs: d[k] = v] *)
Definition dict_update {V : Type} (d : dict V) (kvs : list (string * V)) : dict V :=
  fold_left (fun acc kv => setitem acc (fst kv) (snd kv)) kvs d.

(* ===================================================================== *)
(** ** XML trees and archives *)
(* ===================================================================== *)

(** [xml.etree.ElementTree.Element] *)
#[warnings="-register-all"] Inductive Element : Type :=
| mkElement (tag : string) (attrib : dict string) (text : option string)
            (children : list Element).

Definition tag (e : Element) : string :=
  let '(mkElement t _ _ _) := e in t.
Definition attrib (e : Element) : dict string :=
  let '(mkElement _ a _ _) := e in a.
Definition text (e : Element) : option string :=
  let '(mkElement _ _ x _) := e in x.
Definition children (e : Element) : list Element :=
  let '(mkElement _ _ _ c) := e in c.

(** [e.find(name)] and [e.findall(name)] for a qualified tag name: the
    direct children carrying that tag, in document order. *)
Definition find (e : Element) (name : string) : option Element :=
  List.find (fun c => String.eqb (tag c) name) (children e).
Definition findall (e : Element) (name : string) : list Element :=
  List.filter (fun c => String.eqb (tag c) name) (children e).

(** The bytes of an archive member, up to what the XML parser makes of
    them: a well-formed document with the given root, or anything else. *)
Inductive Bytes : Type :=
| XmlBytes (root : Element)
| RawBytes (payload : string).

(** [ElementTree.fromstring] *)
Definition fromstring (xml : Bytes) : result Element :=
  match xml with
  | XmlBytes root => Ok root
  | RawBytes _ => Raise ParseError
  end.

(** [zipfile.ZipFile]: the members in archive order. *)
Record ZipFile : Type := mkZipFile { filelist : list (string * Bytes) }.

Definition namelist (zipf : ZipFile) : list string := map fst (filelist zipf).

(** The member a name denotes is the last one stored under it. *)
Fixpoint NameToInfo (l : list (string * Bytes)) (name : string) : option Bytes :=
  match l with
  | [] => None
  | (n, b) :: l' =>
      match NameToInfo l' name with
      | Some b' => Some b'
      | None => if String.eqb name n then Some b else None
      end
  end.

(** [zipf.read(name)] *)
Definition read (zipf : ZipFile) (name : string) : result Bytes :=
  match NameToInfo (filelist zipf) name with
  | Some b => Ok b
  | None => Raise KeyError
  end.

(* ===================================================================== *)
(** ** Values held by the context *)
(* ===================================================================== *)

Definition AttribDict : Type := dict string.

Inductive AttribValue : Type :=
| VStr (s : string)
| VRels (rels : list AttribDict).

Definition ExpandedAttribDict : Type := dict AttribValue.

(** [defaultdict(lambda: 0)], keyed by indentation level. *)
Definition defaultdict : Type := PyDict.t Z Z.

Definition new_defaultdict : defaultdict := [].

(** [d[k]] on a defaultdict: the value read and the dictionary afterwards. *)
Definition defaultdict_getitem (d : defaultdict) (k : Z) : Z * defaultdict :=
  match PyDict.get Z.eqb d k with
  | Some v => (v, d)
  | None => (0%Z, PyDict.setitem Z.eqb d k 0%Z)
  end.

Inductive CtxValue : Type :=
| CFiles (files : list ExpandedAttribDict)
| CNumFmts (numId2numFmts : dict (list string))
| CCount (numId2count : dict defaultdict).

Definition Context : Type := dict CtxValue.

(** [try: m  except KeyError: handler] *)
Definition except_KeyError {A : Type} (m : result A) (handler : result A) : result A :=
  match m with
  | Raise KeyError => handler
  | _ => m
  end.

(* ===================================================================== *)
(** ** [collect_docProps]: the tag-name pattern *)
(* ===================================================================== *)

Definition in_range (lo hi : nat) (c : ascii) : bool :=
  let n := nat_of_ascii c in (Nat.leb lo n && Nat.leb n hi)%bool.

(** [\w] on code points below 256. *)
Definition is_word (c : ascii) : bool :=
  (in_range 48 57 c || in_range 65 90 c || in_range 97 122 c
   || Ascii.eqb c "_"%char
   || Nat.eqb (nat_of_ascii c) 170 || in_range 178 179 c
   || Nat.eqb (nat_of_ascii c) 181 || in_range 185 186 c
   || in_range 188 190 c || in_range 192 214 c || in_range 216 246 c
   || in_range 248 255 c)%bool.

(** [.] (no DOTALL): anything but a line feed. *)
Definition is_dot (c : ascii) : bool := negb (Nat.eqb (nat_of_ascii c) 10).

(** Greedy [\w*] at the head of [s]. *)
Fixpoint word_run (s : string) : string :=
  match s with
  | EmptyString => EmptyString
  | String c s' => if is_word c then String c (word_run s') else EmptyString
  end.

(** [}(?P<tag_name>\w+)] at the head of [s]. *)
Definition match_close (s : string) : option string :=
  match s with
  | String c s' =>
      if Ascii.eqb c "}"%char then
        match word_run s' with
        | EmptyString => None
        | w => Some w
        end
      else None
  | EmptyString => None
  end.

(** The rest of the pattern once [.+] has taken at least one character:
    [.+] first tries to take one more, and gives it back when the
    remainder fails. *)
Fixpoint match_dots (s : string) : option string :=
  match s with
  | EmptyString => None
  | String c s' =>
      match (if is_dot c then match_dots s' else None) with
      | Some g => Some g
      | None => match_close s
      end
  end.

(** [re.match(r"{.+}(?P<tag_name>\w+)", s)], as the captured group. *)
Definition match_tag_name (s : string) : option string :=
  match s with
  | String c0 (String c1 s') =>
      if (Ascii.eqb c0 "{"%char && is_dot c1)%bool then match_dots s' else None
  | _ => None
  end.

Fixpoint docProps_loop (dcs : list Element) (docProp2text : dict (option string))
  : result (dict (option string)) :=
  match dcs with
  | [] => Ok docProp2text
  | dc :: rest =>
      m <- not_None (match_tag_name (tag dc)) ;;
      docProps_loop rest (setitem docProp2text m (text dc))
  end.

Definition collect_docProps (xml : Bytes) : result (dict (option string)) :=
  root <- fromstring xml ;;
  docProps_loop (children root) [].

(* ===================================================================== *)
(** ** [collect_rels] *)
(* ===================================================================== *)

Fixpoint rels_loop (zipf : ZipFile) (names : list string)
         (path2rels : dict (list AttribDict)) : result (dict (list AttribDict)) :=
  match names with
  | [] => Ok path2rels
  | rels :: rest =>
      xml <- read zipf rels ;;
      root <- fromstring xml ;;
      rels_loop zipf rest (setitem path2rels rels (map attrib (children root)))
  end.

Definition is_rels (x : string) : bool := String.eqb (last_chars 5 x) ".rels".

Definition collect_rels (zipf : ZipFile) : result (dict (list AttribDict)) :=
  rels_loop zipf (filter is_rels (namelist zipf)) [].

(* ===================================================================== *)
(** ** [collect_numFmts], [get_context], [pull_image_files] *)
(* ===================================================================== *)

Section Context_.
(** [namespace.qn]: the qualified (Clark notation) name of a prefixed
    tag or attribute name. *)
Variable qn : string -> string.

(** [attribute_dicts.get_path_rels], [attribute_dicts.get_path] and
    [attribute_dicts.filter_files_by_type]. *)
Variable get_path_rels : ExpandedAttribDict -> result string.
Variable get_path : ExpandedAttribDict -> result string.
Variable filter_files_by_type :
  list ExpandedAttribDict -> string -> result (list ExpandedAttribDict).

(** *** [collect_numFmts] *)

(** [for lvl in abstractNum.findall(qn("w:lvl")): ...] *)
Fixpoint lvl_loop (lvls : list Element) (id_ : string)
         (abstractNumId2numFmts : dict (list string))
  : result (dict (list string)) :=
  match lvls with
  | [] => Ok abstractNumId2numFmts
  | lvl :: rest =>
      let numFmt := find lvl (qn "w:numFmt") in
      fmts <- getitem abstractNumId2numFmts id_ ;;
      e <- not_None numFmt ;;
      val <- getitem (attrib e) (qn "w:val") ;;
      lvl_loop rest id_ (setitem abstractNumId2numFmts id_ (fmts ++ [val]))
  end.

(** [for abstractNum in root.findall(qn("w:abstractNum")): ...] *)
Fixpoint abstractNum_loop (abstractNums : list Element)
         (abstractNumId2numFmts : dict (list string))
  : result (dict (list string)) :=
  match abstractNums with
  | [] => Ok abstractNumId2numFmts
  | abstractNum :: rest =>
      id_ <- getitem (attrib abstractNum) (qn "w:abstractNumId") ;;
      tbl <- lvl_loop (findall abstractNum (qn "w:lvl")) id_
                      (setitem abstractNumId2numFmts id_ []) ;;
      abstractNum_loop rest tbl
  end.

(** [for num in root.findall(qn("w:num")): ...] *)
Fixpoint num_loop (nums : list Element)
         (abstractNumId2numFmts numId2numFmts : dict (list string))
  : result (dict (list string)) :=
  match nums with
  | [] => Ok numId2numFmts
  | num :: rest =>
      numId <- getitem (attrib num) (qn "w:numId") ;;
      ref <- not_None (find num (qn "w:abstractNumId")) ;;
      abstractNumId <- getitem (attrib ref) (qn "w:val") ;;
      fmts <- getitem abstractNumId2numFmts abstractNumId ;;
      num_loop rest abstractNumId2numFmts (setitem numId2numFmts numId fmts)
  end.

(** The table built by the first loop of [collect_numFmts]. *)
Definition abstractNumId2numFmts_of (root : Element) : result (dict (list string)) :=
  abstractNum_loop (findall root (qn "w:abstractNum")) [].

Definition collect_numFmts (xml : Bytes) : result (dict (list string)) :=
  root <- fromstring xml ;;
  abstractNumId2numFmts <- abstractNumId2numFmts_of root ;;
  num_loop (findall root (qn "w:num")) abstractNumId2numFmts [].

(** *** [get_context] *)

(** [{**x, "dir": d}] *)
Definition with_dir (x : AttribDict) (d : string) : ExpandedAttribDict :=
  setitem (map (fun kv => (fst kv, VStr (snd kv))) x) "dir" (VStr d).

(** [for k, v in path2rels.items(): files += [...]] *)
Fixpoint flatten_loop (items : list (string * list AttribDict))
         (files : list ExpandedAttribDict) : list ExpandedAttribDict :=
  match items with
  | [] => files
  | (k, v) :: rest =>
      flatten_loop rest (files ++ map (fun x => with_dir x (dirname k)) v)
  end.

(** The body of [for file in files], on one file: the file afterwards. *)
Definition attach_rels (path2rels : dict (list AttribDict))
           (file : ExpandedAttribDict) : result ExpandedAttribDict :=
  except_KeyError
    (p <- get_path_rels file ;;
     rels <- getitem path2rels p ;;
     Ok (setitem file "rels" (VRels rels)))
    (Ok file).

Definition numbering_part : string := "word/numbering.xml".

Definition get_context (zipf : ZipFile) : result Context :=
  path2rels <- collect_rels zipf ;;
  let files := flatten_loop (PyDict.items path2rels) [] in
  files <- mapM (attach_rels path2rels) files ;;
  let context : Context := [("files", CFiles files)] in
  except_KeyError
    (xml <- read zipf numbering_part ;;
     numId2numFmts <- collect_numFmts xml ;;
     let context := setitem context "numId2numFmts" (CNumFmts numId2numFmts) in
     Ok (setitem context "numId2count"
           (CCount (map (fun x => (x, new_defaultdict)) (keys numId2numFmts)))))
    (Ok context).

(** *** [pull_image_files] *)

Inductive fs_op : Type :=
| Mkdir (path : string)
| WriteFile (path : string) (data : Bytes).

(** [{os.path.basename(x["Target"]): zipf.read(get_path(x)) for x in xs}] *)
Fixpoint images_loop (zipf : ZipFile) (xs : list ExpandedAttribDict)
         (images : dict Bytes) : result (dict Bytes) :=
  match xs with
  | [] => Ok images
  | x :: rest =>
      target <- getitem x "Target" ;;
      key <- match target with
             | VStr s => Ok (basename s)
             | VRels _ => Raise TypeError
             end ;;
      p <- get_path x ;;
      data <- read zipf p ;;
      images_loop zipf rest (setitem images key data)
  end.

(** The mapping returned, with the writes made on the way. *)
Definition pull_image_files (zipf : ZipFile) (context : Context)
           (image_directory : option string)
  : result (dict Bytes * list fs_op) :=
  files <- getitem context "files" ;;
  files <- match files with
           | CFiles l => Ok l
           | _ => Raise TypeError
           end ;;
  xs <- filter_files_by_type files "image" ;;
  images <- images_loop zipf xs [] ;;
  match image_directory with
  | Some d =>
      Ok (images,
          Mkdir d
          :: map (fun fi => WriteFile (path_join d (fst fi)) (snd fi))
                 (PyDict.items images))
  | None => Ok (images, [])
  end.
End Context_.

(* ===================================================================== *)
(** ** Vocabulary of the statements *)
(* ===================================================================== *)

Section Vocabulary.
Variable qn : string -> string.

(** [lvl.find(qn("w:numFmt")).attrib[qn("w:val")]]: the format name a
    level definition declares. *)
Definition lvl_numFmt (lvl : Element) : result string :=
  e <- not_None (find lvl (qn "w:numFmt")) ;;
  getitem (attrib e) (qn "w:val").

(** The format names of a definition's levels, in document order. *)
Definition numFmts_of (abstractNum : Element) : result (list string) :=
  mapM lvl_numFmt (findall abstractNum (qn "w:lvl")).

Definition abstractNumId_of (abstractNum : Element) : result string :=
  getitem (attrib abstractNum) (qn "w:abstractNumId").

Definition abstractNum_entry (abstractNum : Element)
  : result (string * list string) :=
  id_ <- abstractNumId_of abstractNum ;;
  fmts <- numFmts_of abstractNum ;;
  Ok (id_, fmts).

Definition numId_of (num : Element) : result string :=
  getitem (attrib num) (qn "w:numId").

(** [num.find(qn("w:abstractNumId")).attrib[qn("w:val")]]: the
    definition a list refers to. *)
Definition num_abstractNumId (num : Element) : result string :=
  ref <- not_None (find num (qn "w:abstractNumId")) ;;
  getitem (attrib ref) (qn "w:val").

Definition num_entry (abstractNumId2numFmts : dict (list string))
           (num : Element) : result (string * list string) :=
  numId <- numId_of num ;;
  abstractNumId <- num_abstractNumId num ;;
  fmts <- getitem abstractNumId2numFmts abstractNumId ;;
  Ok (numId, fmts).

(** An element whose evaluation gives a key [k], placed after which no
    element gives [k] again. *)
Definition last_with {A : Type} (key : A -> result string) (l : list A)
           (a : A) (k : string) : Prop :=
  exists pre post,
    l = pre ++ a :: post /\ key a = Ok k
    /\ forall b, In b post -> key b <> Ok k.
(** The [w:lvl] children of a definition, in document order. *)
Definition lvls_of (abstractNum : Element) : list Element :=
  findall abstractNum (qn "w:lvl").

(** The decimal numeral of a level index. *)
Definition decimal (n : nat) : string :=
  NilEmpty.string_of_uint (Nat.to_uint n).

(** The level definition declares level [i] (its [w:ilvl]). *)
Definition declares_level (lvl : Element) (i : nat) : Prop :=
  dict_get (attrib lvl) (qn "w:ilvl") = Some (decimal i).

(** The definition has [n + 1] levels and declares each of 0..n. *)
Definition contiguous_levels (abstractNum : Element) (n : nat) : Prop :=
  length (lvls_of abstractNum) = S n
  /\ forall i, i <= n ->
       exists lvl, In lvl (lvls_of abstractNum) /\ declares_level lvl i.

(** The same, the levels being written in ascending order: the [k]-th
    [w:lvl] child declares level [k]. *)
Definition ascending_levels (abstractNum : Element) (n : nat) : Prop :=
  length (lvls_of abstractNum) = S n
  /\ forall k lvl,
       nth_error (lvls_of abstractNum) k = Some lvl -> declares_level lvl k.

(** Level [i] is declared nowhere in the definition although a higher
    level is. *)
Definition missing_level (abstractNum : Element) (i : nat) : Prop :=
  (forall lvl, In lvl (lvls_of abstractNum) -> ~ declares_level lvl i)
  /\ exists j lvl,
       i < j /\ In lvl (lvls_of abstractNum) /\ declares_level lvl j.
End Vocabulary.


(** *** Relationships, images and properties *)

(** The top-level relationship descriptor of a package. *)
Definition top_level_rels : string := "_rels/.rels".

(** One turn of the loop of [collect_rels]: the key assigned and its
    value. *)
Definition rels_entry (zipf : ZipFile) (rels : string)
  : result (string * list AttribDict) :=
  xml <- read zipf rels ;;
  root <- fromstring xml ;;
  Ok (rels, map attrib (children root)).

(** The relationship entries of all descriptors, each with the path of
    its descriptor, in the order [get_context] visits them. *)
Definition entries_of (path2rels : dict (list AttribDict))
  : list (string * AttribDict) :=
  flat_map (fun kv => map (fun x => (fst kv, x)) (snd kv)) path2rels.

(** [os.path.basename(x["Target"])] *)
Definition target_basename (x : ExpandedAttribDict) : result string :=
  target <- getitem x "Target" ;;
  match target with
  | VStr s => Ok (basename s)
  | VRels _ => Raise TypeError
  end.

(** [zipf.read(get_path(x))] *)
Definition image_bytes (get_path : ExpandedAttribDict -> result string)
           (zipf : ZipFile) (x : ExpandedAttribDict) : result Bytes :=
  p <- get_path x ;;
  read zipf p.

(** One turn of the comprehension of [pull_image_files]. *)
Definition image_entry (get_path : ExpandedAttribDict -> result string)
           (zipf : ZipFile) (x : ExpandedAttribDict) : result (string * Bytes) :=
  key <- target_basename x ;;
  data <- image_bytes get_path zipf x ;;
  Ok (key, data).

(** The context of a document that has a numbering part. *)
Definition with_numbering (files : list ExpandedAttribDict)
           (numId2numFmts : dict (list string)) : Context :=
  [ ("files", CFiles files);
    ("numId2numFmts", CNumFmts numId2numFmts);
    ("numId2count",
     CCount (map (fun x => (x, new_defaultdict)) (keys numId2numFmts))) ].

(** What [get_context] makes of one relationship entry [snd kx] of the
    descriptor [fst kx]: the record is tagged with the directory of the
    descriptor, and carries the attributes of the entry as they are. *)
Definition record_of (kx : string * AttribDict) (file : ExpandedAttribDict)
  : Prop :=
  dict_get file "dir" = Some (VStr (dirname (fst kx)))
  /\ forall a, a <> "dir" -> a <> "rels" ->
               dict_get file a = option_map VStr (dict_get (snd kx) a).

Fixpoint string_forallb (p : ascii -> bool) (s : string) : bool :=
  match s with
  | EmptyString => true
  | String c s' => (p c && string_forallb p s')%bool
  end.

Definition no_slash (name : string) : Prop :=
  string_forallb (fun c => negb (Ascii.eqb c slash)) name = true.

(** A tag the pattern of [collect_docProps] matches: a brace, a
    non-empty namespace without line feed, a closing brace, and a local
    name that begins with word characters. *)
Definition qualified_tag (t : string) : Prop :=
  exists ns c local rest,
    t = ("{" ++ ns ++ "}" ++ String c local ++ rest)%string
    /\ ns <> EmptyString
    /\ string_forallb is_dot ns = true
    /\ string_forallb is_word (String c local) = true.

(** The key [collect_docProps] assigns for a child of the root:
    [re.match(capture_tag_name, dc.tag).group("tag_name")]. *)
Definition docProp_name (dc : Element) : result string :=
  not_None (match_tag_name (tag dc)).

(** One turn of the loop of [collect_docProps]. *)
Definition docProps_entry (dc : Element) : result (string * option string) :=
  m <- docProp_name dc ;;
  Ok (m, text dc).

Definition no_brace (s : string) : Prop :=
  string_forallb (fun c => negb (Ascii.eqb c "}"%char)) s = true.

(** The string is empty or begins with a character that [\w] rejects. *)
Definition not_word_first (s : string) : Prop :=
  match s with
  | EmptyString => True
  | String c _ => is_word c = false
  end.

(** The name ends in [.rels]. *)
Definition ends_with_rels (x : string) : Prop :=
  exists p, x = (p ++ ".rels")%string.

(** The record [get_context] builds for a relationship entry, before the
    nested relationships are attached. *)
Definition base_record (kx : string * AttribDict) : ExpandedAttribDict :=
  with_dir (snd kx) (dirname (fst kx)).

(** What the loop [for file in files] of [get_context] makes of the
    record of an entry: the relationships of the descriptor
    [get_path_rels] names are attached under [rels] when [path2rels] has
    that descriptor, and the record is left alone otherwise. *)
Definition cross_linked (get_path_rels : ExpandedAttribDict -> result string)
           (path2rels : dict (list AttribDict))
           (kx : string * AttribDict) (file : ExpandedAttribDict) : Prop :=
  match get_path_rels (base_record kx) with
  | Ok p =>
      match dict_get path2rels p with
      | Some rels => file = setitem (base_record kx) "rels" (VRels rels)
      | None => file = base_record kx
      end
  | Raise e => e = KeyError /\ file = base_record kx
  end.

(** The path of the relationship descriptor of a part [P]: the [_rels]
    folder of the directory that contains [P], and in it the name of [P]
    followed by [.rels]. *)
Definition descriptor_of (P : string) : string :=
  path_join (path_join (dirname P) "_rels") (basename P ++ ".rels").

(** A tag that is a namespace in braces followed by a local name made of
    word characters only. *)
Definition word_local_name_tag (t : string) : Prop :=
  exists ns local,
    t = ("{" ++ ns ++ "}" ++ local)%string
    /\ ns <> EmptyString
    /\ local <> EmptyString
    /\ string_forallb is_word local = true.

(* ===================================================================== *)
(** ** Instances of the imported helpers, and example documents *)
(* ===================================================================== *)

Module Demo.

Definition w_uri : string :=
  "http://schemas.openxmlformats.org/wordprocessingml/2006/main".

(** Modelled from the spec: [namespace.qn] is not among the sources.
    It maps a short logical name such as [w:numFmt] to the
    fully-qualified name, the namespace URI in braces followed by the
    local name. *)
Definition qn (name : string) : string :=
  match index 0 ":" name with
  | Some i =>
      "{" ++ w_uri ++ "}"
          ++ substring (S i) (String.length name - S i) name
  | None => name
  end.

Definition str_of (file : ExpandedAttribDict) (k : string) : result string :=
  v <- getitem file k ;;
  match v with
  | VStr s => Ok s
  | VRels _ => Raise TypeError
  end.

(** Modelled from the spec: [attribute_dicts.get_path] is not among the
    sources. The target of a record is resolved relative to the
    directory of the part that owns the relationship; the record's
    [dir] is the directory of the descriptor, the [_rels] folder of
    that directory. *)
Definition get_path (file : ExpandedAttribDict) : result string :=
  d <- str_of file "dir" ;;
  t <- str_of file "Target" ;;
  Ok (path_join (dirname d) t).

(** Modelled from the spec: [attribute_dicts.get_path_rels] is not among
    the sources. The descriptor of a part lives in the [_rels] folder of
    the part's directory, under the part's name followed by [.rels]. *)
Definition get_path_rels (file : ExpandedAttribDict) : result string :=
  p <- get_path file ;;
  Ok (path_join (path_join (dirname p) "_rels") (basename p ++ ".rels")).

(** Modelled from the spec: [attribute_dicts.filter_files_by_type] is
    not among the sources. It keeps the records whose [Type] denotes
    the given kind of relationship, in order. *)
Fixpoint filter_files_by_type (files : list ExpandedAttribDict) (type : string)
  : result (list ExpandedAttribDict) :=
  match files with
  | [] => Ok []
  | f :: rest =>
      t <- str_of f "Type" ;;
      rest' <- filter_files_by_type rest type ;;
      Ok (if String.eqb (basename t) type then f :: rest' else rest')
  end.

(** *** Numbering documents *)

Definition lvl (ilvl fmt : string) : Element :=
  mkElement (qn "w:lvl") [(qn "w:ilvl", ilvl)] None
    [ mkElement (qn "w:start") [(qn "w:val", "1")] None [];
      mkElement (qn "w:numFmt") [(qn "w:val", fmt)] None [] ].

Definition abstractNum (id_ : string) (lvls : list Element) : Element :=
  mkElement (qn "w:abstractNum") [(qn "w:abstractNumId", id_)] None lvls.

Definition num (numId abstractNumId : string) : Element :=
  mkElement (qn "w:num") [(qn "w:numId", numId)] None
    [ mkElement (qn "w:abstractNumId") [(qn "w:val", abstractNumId)] None [] ].

Definition numbering (body : list Element) : Element :=
  mkElement (qn "w:numbering") [] None body.

(** Two definitions, three lists. *)
Definition numbering_ok : Element :=
  numbering
    [ abstractNum "0" [lvl "0" "decimal"; lvl "1" "lowerLetter"; lvl "2" "lowerRoman"];
      abstractNum "5" [lvl "0" "bullet"];
      num "1" "0"; num "2" "5"; num "3" "0" ].

(** A list that refers to a definition that does not exist. *)
Definition numbering_dangling : Element :=
  numbering [ abstractNum "0" [lvl "0" "decimal"]; num "1" "7" ].

(** A definition that declares levels 0 and 2 and no level 1. *)
Definition abstractNum_gap : Element :=
  abstractNum "0" [lvl "0" "decimal"; lvl "2" "bullet"].
Definition numbering_gap : Element :=
  numbering [ abstractNum_gap; num "1" "0" ].

(** A definition that declares level 1 before level 0. *)
Definition abstractNum_swapped : Element :=
  abstractNum "0" [lvl "1" "bullet"; lvl "0" "decimal"].
Definition numbering_swapped : Element :=
  numbering [ abstractNum_swapped; num "1" "0" ].

(** *** Relationship descriptors *)

Definition rel_types : string :=
  "http://schemas.openxmlformats.org/officeDocument/2006/relationships/".

Definition Relationship (id_ type target : string) : Element :=
  mkElement
    "{http://schemas.openxmlformats.org/package/2006/relationships}Relationship"
    [("Id", id_); ("Type", (rel_types ++ type)%string); ("Target", target)] None [].

Definition Relationships (body : list Element) : Element :=
  mkElement
    "{http://schemas.openxmlformats.org/package/2006/relationships}Relationships"
    [] None body.

Definition top_rels : Element :=
  Relationships [ Relationship "rId1" "officeDocument" "word/document.xml" ].

Definition document_rels : Element :=
  Relationships
    [ Relationship "rId1" "image" "media/image1.png";
      Relationship "rId2" "header" "header1.xml";
      Relationship "rId3" "image" "media/image2.jpg" ].

Definition header_rels : Element :=
  Relationships [ Relationship "rId1" "image" "media/sub/image1.png" ].

(** *** Archives *)

Definition body : Bytes := XmlBytes (mkElement (qn "w:document") [] None []).

Definition docx_basic : ZipFile :=
  mkZipFile
    [ ("_rels/.rels", XmlBytes top_rels);
      ("word/document.xml", body) ].

Definition docx_lists : ZipFile :=
  mkZipFile
    [ ("_rels/.rels", XmlBytes top_rels);
      ("word/document.xml", body);
      ("word/numbering.xml", XmlBytes numbering_ok) ].

Definition docx_dangling : ZipFile :=
  mkZipFile
    [ ("_rels/.rels", XmlBytes top_rels);
      ("word/document.xml", body);
      ("word/numbering.xml", XmlBytes numbering_dangling) ].

Definition docx_no_top_rels : ZipFile :=
  mkZipFile [ ("word/document.xml", body) ].

Definition docx_images : ZipFile :=
  mkZipFile
    [ ("_rels/.rels", XmlBytes top_rels);
      ("word/_rels/document.xml.rels", XmlBytes document_rels);
      ("word/_rels/header1.xml.rels", XmlBytes header_rels);
      ("word/document.xml", body);
      ("word/header1.xml", XmlBytes (mkElement (qn "w:hdr") [] None []));
      ("word/media/image1.png", RawBytes "png-of-the-body");
      ("word/media/image2.jpg", RawBytes "jpg-of-the-body");
      ("word/media/sub/image1.png", RawBytes "png-of-the-header") ].

(** An archive without top-level descriptor, one image in the body. *)
Definition docx_one_image : ZipFile :=
  mkZipFile
    [ ("word/_rels/document.xml.rels",
       XmlBytes (Relationships [ Relationship "rId1" "image" "media/image1.png" ]));
      ("word/document.xml", body);
      ("word/media/image1.png", RawBytes "png-of-the-body") ].

Definition image_record (id_ target : string) : ExpandedAttribDict :=
  [ ("Id", VStr id_); ("Type", VStr (rel_types ++ "image"));
    ("Target", VStr target); ("dir", VStr "word/_rels") ].

(** Two image records whose targets share a base filename. *)
Definition context_same_basename : Context :=
  [ ("files",
     CFiles [ image_record "rId1" "media/image1.png";
              image_record "rId7" "media/sub/image1.png" ]) ].

(** Two definitions carry the identifier 0. *)
Definition numbering_redefined : Element :=
  numbering
    [ abstractNum "0" [lvl "0" "decimal"; lvl "1" "lowerLetter"];
      abstractNum "0" [lvl "0" "bullet"];
      num "1" "0" ].

(** The second level of the definition declares no format. *)
Definition lvl_no_format : Element :=
  mkElement (qn "w:lvl") [(qn "w:ilvl", "1")] None
    [ mkElement (qn "w:start") [(qn "w:val", "1")] None [] ].
Definition numbering_no_format : Element :=
  numbering [ abstractNum "0" [lvl "0" "decimal"; lvl_no_format]; num "1" "0" ].
Definition docx_no_format : ZipFile :=
  mkZipFile
    [ ("_rels/.rels", XmlBytes top_rels);
      ("word/document.xml", body);
      ("word/numbering.xml", XmlBytes numbering_no_format) ].

(** An archive whose members include a settings part and a theme. *)
Definition docx_lists_and_more : ZipFile :=
  mkZipFile
    [ ("_rels/.rels", XmlBytes top_rels);
      ("word/document.xml", body);
      ("word/theme/theme1.xml", RawBytes "not read");
      ("word/numbering.xml", XmlBytes numbering_ok) ].

(** An image record whose target is stored nowhere in the archive. *)
Definition context_missing_image : Context :=
  [ ("files",
     CFiles [ image_record "rId1" "media/image1.png";
              image_record "rId9" "media/absent.png" ]) ].

(** A numbering part with a definition and no list. *)
Definition numbering_no_lists : Element :=
  numbering [ abstractNum "0" [lvl "0" "decimal"] ].
Definition docx_no_lists : ZipFile :=
  mkZipFile
    [ ("_rels/.rels", XmlBytes top_rels);
      ("word/document.xml", body);
      ("word/numbering.xml", XmlBytes numbering_no_lists) ].

(** *** Core properties *)

Definition core_properties : Element :=
  mkElement
    "{http://schemas.openxmlformats.org/package/2006/metadata/core-properties}coreProperties"
    [] None
    [ mkElement "{http://purl.org/dc/elements/1.1/}creator" [] (Some "Shay Hill") [];
      mkElement
        "{http://schemas.openxmlformats.org/package/2006/metadata/core-properties}revision"
        [] (Some "6") [] ].

(** A properties part one of whose children carries no namespace. *)
Definition core_properties_unqualified : Element :=
  mkElement "coreProperties" [] None
    [ mkElement "{http://purl.org/dc/elements/1.1/}creator" [] (Some "Shay Hill") [];
      mkElement "revision" [] (Some "6") [] ].

(** A properties part whose child has a hyphen in its local name. *)
Definition custom_properties : Element :=
  mkElement "{urn:x}properties" [] None
    [ mkElement "{urn:x}my-property" [] (Some "v") [] ].

End Demo.

(* ===================================================================== *)
(** * Properties *)
(* ===================================================================== *)

(** ** The error monad *)

Lemma bind_Ok_inv {A B : Type} (m : result A) (f : A -> result B) (b : B) :
  (x <- m ;; f x) = Ok b -> exists a, m = Ok a /\ f a = Ok b.
Proof. destruct m as [a|e]; simpl; [eauto | discriminate]. Qed.

Lemma not_None_Ok_inv {A : Type} (o : option A) (a : A) :
  not_None o = Ok a -> o = Some a.
Proof. destruct o; simpl; congruence. Qed.

Lemma except_KeyError_Ok_inv {A : Type} (m h : result A) (a : A) :
  except_KeyError m h = Ok a -> m = Ok a \/ (m = Raise KeyError /\ h = Ok a).
Proof. destruct m as [x|[]]; simpl; auto; discriminate. Qed.

Ltac inv_bind H :=
  repeat match type of H with
    | bind _ _ = Ok _ =>
        let x := fresh "x" in
        let Hx := fresh "Hx" in
        apply bind_Ok_inv in H; destruct H as [x [Hx H]]
    end.

(** ** [mapM] *)

(** ** Python dictionaries *)

Section PyDictFacts.
Variables (K V : Type).
Variable eqb : K -> K -> bool.
Local Abbreviation get := (PyDict.get eqb).
Local Abbreviation setitem := (PyDict.setitem eqb).
Local Abbreviation keys := (@PyDict.keys K V).
Implicit Types (d : PyDict.t K V) (k : K) (v : V).
Hypothesis eqb_eq : forall a b, eqb a b = true <-> a = b.

Lemma pydict_eqb_refl k : eqb k k = true.
Proof. apply eqb_eq. reflexivity. Qed.

Lemma pydict_eqb_neq a b : a <> b -> eqb a b = false.
Proof.
  intros H. destruct (eqb a b) eqn:E; [|reflexivity].
  apply eqb_eq in E. contradiction.
Qed.

Lemma pydict_get_setitem_same d k v : get (setitem d k v) k = Some v.
Proof.
  induction d as [|[k' v'] d IH]; simpl.
  - now rewrite pydict_eqb_refl.
  - destruct (eqb k k') eqn:E; simpl; rewrite E; auto.
Qed.

Lemma pydict_get_setitem_other d k k' v :
  k' <> k -> get (setitem d k v) k' = get d k'.
Proof.
  intros Hne. induction d as [|[k0 v0] d IH]; simpl.
  - now rewrite (pydict_eqb_neq Hne).
  - destruct (eqb k k0) eqn:E; simpl.
    + apply eqb_eq in E. subst k0. now rewrite (pydict_eqb_neq Hne).
    + now rewrite IH.
Qed.

Lemma pydict_keys_setitem d k v k' :
  In k' (keys (setitem d k v)) <-> k' = k \/ In k' (keys d).
Proof.
  unfold PyDict.keys. induction d as [|[k0 v0] d IH]; simpl.
  - intuition.
  - destruct (eqb k k0) eqn:E; simpl.
    + apply eqb_eq in E. subst k0. intuition.
    + rewrite IH. intuition.
Qed.

Lemma pydict_get_Some_In_keys d k v : get d k = Some v -> In k (keys d).
Proof.
  unfold PyDict.keys. induction d as [|[k0 v0] d IH]; simpl; [discriminate|].
  destruct (eqb k k0) eqn:E.
  - apply eqb_eq in E. auto.
  - auto.
Qed.

Lemma pydict_In_keys_get d k : In k (keys d) -> exists v, get d k = Some v.
Proof.
  unfold PyDict.keys. induction d as [|[k0 v0] d IH]; simpl; [tauto|].
  intros [->|H].
  - rewrite pydict_eqb_refl. eauto.
  - destruct (eqb k k0); eauto.
Qed.

Lemma pydict_get_None_not_In d k : get d k = None <-> ~ In k (keys d).
Proof.
  split.
  - intros H Hin. apply pydict_In_keys_get in Hin. destruct Hin as [v Hv]. congruence.
  - intros H. destruct (get d k) eqn:E; [|reflexivity].
    apply pydict_get_Some_In_keys in E. contradiction.
Qed.

Lemma pydict_NoDup_keys_setitem d k v :
  NoDup (keys d) -> NoDup (keys (setitem d k v)).
Proof.
  unfold PyDict.keys. induction d as [|[k0 v0] d IH]; simpl; intros H.
  - constructor; [tauto | constructor].
  - inversion H as [|? ? Hnin Hd]; subst.
    destruct (eqb k k0) eqn:E; simpl.
    + constructor; assumption.
    + constructor; [|auto].
      intros Hin. apply (pydict_keys_setitem d k v k0) in Hin.
      destruct Hin as [->|Hin]; [|contradiction].
      rewrite pydict_eqb_refl in E. discriminate.
Qed.
End PyDictFacts.

Section MapM.
Variables (A B : Type).
Variable f : A -> result B.

Lemma mapM_app (l1 l2 : list A) :
  mapM f (l1 ++ l2) = (bs1 <- mapM f l1 ;; bs2 <- mapM f l2 ;; Ok (bs1 ++ bs2)).
Proof.
  induction l1 as [|a l1 IH]; simpl.
  - destruct (mapM f l2); reflexivity.
  - destruct (f a); simpl; [|reflexivity].
    rewrite IH. destruct (mapM f l1); simpl; [|reflexivity].
    destruct (mapM f l2); reflexivity.
Qed.

Lemma mapM_Ok_Forall2 (l : list A) (bs : list B) :
  mapM f l = Ok bs <-> Forall2 (fun a b => f a = Ok b) l bs.
Proof.
  revert bs. induction l as [|a l IH]; intros bs; simpl.
  - split; intros H; [injection H as <-; constructor | inversion H; reflexivity].
  - split; intros H.
    + inv_bind H. injection H as <-. constructor; [assumption|]. now apply IH.
    + inversion H as [|? b ? bs' Hab Hl]; subst.
      apply IH in Hl. rewrite Hab, Hl. reflexivity.
Qed.

Lemma mapM_Ok_length (l : list A) (bs : list B) :
  mapM f l = Ok bs -> length bs = length l.
Proof.
  intros H. apply mapM_Ok_Forall2 in H. symmetry.
  induction H; simpl; congruence.
Qed.

Lemma mapM_Ok_nth (l : list A) (bs : list B) (i : nat) (a : A) :
  mapM f l = Ok bs -> nth_error l i = Some a ->
  exists b, f a = Ok b /\ nth_error bs i = Some b.
Proof.
  intros H. apply mapM_Ok_Forall2 in H. revert i.
  induction H as [|a0 b0 l bs Hab _ IH]; intros [|i]; simpl; try discriminate.
  - intros [= ->]. eauto.
  - apply IH.
Qed.

Lemma mapM_total (l : list A) :
  Forall (fun a => is_ok (f a) = true) l -> exists bs, mapM f l = Ok bs.
Proof.
  induction 1 as [|a l Ha _ [bs IH]]; simpl; [eauto|].
  destruct (f a) as [b|e]; [|discriminate]. rewrite IH. simpl. eauto.
Qed.

Lemma mapM_Ok_is_ok (l : list A) (bs : list B) :
  mapM f l = Ok bs -> Forall (fun a => is_ok (f a) = true) l.
Proof.
  intros H. apply mapM_Ok_Forall2 in H.
  induction H as [|a b l bs' Hab _ IH]; constructor; [now rewrite Hab | assumption].
Qed.
End MapM.

(** ** Dictionaries keyed by strings *)

Section DictFacts.
Variable V : Type.
Implicit Types (d : dict V) (k : string) (v : V) (kvs : list (string * V)).

Lemma getitem_Ok d k v : getitem d k = Ok v <-> dict_get d k = Some v.
Proof.
  unfold getitem, PyDict.getitem, dict_get.
  destruct (PyDict.get String.eqb d k); split; congruence.
Qed.

Lemma getitem_KeyError d k : getitem d k = Raise KeyError <-> ~ In k (keys d).
Proof.
  unfold getitem, PyDict.getitem, keys.
  rewrite <- (pydict_get_None_not_In String.eqb String.eqb_eq).
  destruct (PyDict.get String.eqb d k); split; congruence.
Qed.

Lemma getitem_Raise d k e : getitem d k = Raise e -> e = KeyError.
Proof.
  unfold getitem, PyDict.getitem.
  destruct (PyDict.get String.eqb d k); congruence.
Qed.

Lemma dict_get_setitem_same d k v : dict_get (setitem d k v) k = Some v.
Proof. apply (pydict_get_setitem_same String.eqb String.eqb_eq). Qed.

Lemma dict_get_setitem_other d k k' v :
  k' <> k -> dict_get (setitem d k v) k' = dict_get d k'.
Proof. apply (pydict_get_setitem_other String.eqb String.eqb_eq). Qed.

Lemma keys_setitem d k v k' :
  In k' (keys (setitem d k v)) <-> k' = k \/ In k' (keys d).
Proof. apply (pydict_keys_setitem String.eqb String.eqb_eq). Qed.

Lemma setitem_setitem d k v v' : setitem (setitem d k v) k v' = setitem d k v'.
Proof.
  unfold setitem. induction d as [|[k0 v0] d IH]; simpl.
  - now rewrite String.eqb_refl.
  - destruct (String.eqb k k0) eqn:E; simpl; rewrite E; [reflexivity|].
    now rewrite IH.
Qed.

Lemma setitem_dict_get d k v : dict_get d k = Some v -> setitem d k v = d.
Proof.
  unfold setitem, dict_get. induction d as [|[k0 v0] d IH]; simpl; [discriminate|].
  destruct (String.eqb k k0) eqn:E.
  - now intros [= ->].
  - intros H. now rewrite IH.
Qed.

Lemma dict_update_app d kvs1 kvs2 :
  dict_update d (kvs1 ++ kvs2) = dict_update (dict_update d kvs1) kvs2.
Proof. apply fold_left_app. Qed.

Lemma dict_update_cons d k v kvs :
  dict_update d ((k, v) :: kvs) = dict_update (setitem d k v) kvs.
Proof. reflexivity. Qed.

Lemma dict_get_update_notin kvs : forall d k,
  ~ In k (map fst kvs) -> dict_get (dict_update d kvs) k = dict_get d k.
Proof.
  induction kvs as [|[k0 v0] kvs IH]; intros d k Hk; [reflexivity|].
  simpl in Hk. rewrite dict_update_cons, IH by tauto.
  apply dict_get_setitem_other. intros ->. tauto.
Qed.

(** The last assignment to a key is the one that is read back. *)
Lemma dict_get_update_last d pre k v post :
  ~ In k (map fst post) ->
  dict_get (dict_update d (pre ++ (k, v) :: post)) k = Some v.
Proof.
  intros Hk. rewrite dict_update_app, dict_update_cons.
  rewrite dict_get_update_notin by assumption.
  apply dict_get_setitem_same.
Qed.

Lemma keys_update kvs : forall d k,
  In k (keys (dict_update d kvs)) <-> In k (keys d) \/ In k (map fst kvs).
Proof.
  induction kvs as [|[k0 v0] kvs IH]; intros d k.
  - simpl. tauto.
  - rewrite dict_update_cons, IH, keys_setitem. simpl.
    split; intros H; intuition.
Qed.

Lemma NoDup_keys_update kvs : forall d,
  NoDup (keys d) -> NoDup (keys (dict_update d kvs)).
Proof.
  induction kvs as [|[k0 v0] kvs IH]; intros d H; [assumption|].
  rewrite dict_update_cons. apply IH.
  now apply (pydict_NoDup_keys_setitem String.eqb String.eqb_eq).
Qed.

(** Every value read back was assigned, or was there before. *)
Lemma dict_get_update_inv kvs : forall d k v,
  dict_get (dict_update d kvs) k = Some v ->
  (exists pre post, kvs = pre ++ (k, v) :: post /\ ~ In k (map fst post))
  \/ (dict_get d k = Some v /\ ~ In k (map fst kvs)).
Proof.
  induction kvs as [|[k0 v0] kvs IH]; intros d k v H.
  - right. split; [assumption | simpl; tauto].
  - rewrite dict_update_cons in H. apply IH in H.
    destruct H as [(pre & post & -> & Hpost) | [Hget Hnin]].
    + left. exists ((k0, v0) :: pre), post. split; [reflexivity | assumption].
    + destruct (string_dec k k0) as [->|Hne].
      * rewrite dict_get_setitem_same in Hget. injection Hget as ->.
        left. exists [], kvs. split; [reflexivity | assumption].
      * rewrite dict_get_setitem_other in Hget by assumption.
        right. split; [assumption|]. simpl. intros [Heq|Hin]; [congruence | tauto].
Qed.
End DictFacts.

(** ** The loops of [collect_numFmts] *)

Section Numbering.
Variable qn : string -> string.

Lemma lvl_loop_eq lvls : forall id_ tbl fmts0,
  dict_get tbl id_ = Some fmts0 ->
  lvl_loop qn lvls id_ tbl
  = (vals <- mapM (lvl_numFmt qn) lvls ;; Ok (setitem tbl id_ (fmts0 ++ vals))).
Proof.
  induction lvls as [|lvl rest IH]; intros id_ tbl fmts0 Hget; simpl.
  - rewrite app_nil_r, setitem_dict_get by assumption. reflexivity.
  - apply getitem_Ok in Hget. rewrite Hget. simpl.
    unfold lvl_numFmt.
    destruct (not_None (find lvl (qn "w:numFmt"))) as [e|]; simpl; [|reflexivity].
    destruct (getitem (attrib e) (qn "w:val")) as [val|]; simpl; [|reflexivity].
    rewrite (IH id_ _ (fmts0 ++ [val])) by apply dict_get_setitem_same.
    destruct (mapM _ rest) as [vals|]; simpl; [|reflexivity].
    rewrite setitem_setitem, <- app_assoc. reflexivity.
Qed.

Lemma abstractNum_loop_eq abstractNums : forall tbl,
  abstractNum_loop qn abstractNums tbl
  = (kvs <- mapM (abstractNum_entry qn) abstractNums ;; Ok (dict_update tbl kvs)).
Proof.
  induction abstractNums as [|a rest IH]; intros tbl; simpl; [reflexivity|].
  unfold abstractNum_entry at 1, abstractNumId_of, numFmts_of.
  destruct (getitem (attrib a) (qn "w:abstractNumId")) as [id_|]; simpl; [|reflexivity].
  rewrite (@lvl_loop_eq _ id_ _ []) by apply dict_get_setitem_same.
  destruct (mapM (lvl_numFmt qn) _) as [vals|]; simpl; [|reflexivity].
  rewrite setitem_setitem, IH.
  destruct (mapM (abstractNum_entry qn) rest); reflexivity.
Qed.

Lemma num_loop_eq nums tbl : forall idx,
  num_loop qn nums tbl idx
  = (kvs <- mapM (num_entry qn tbl) nums ;; Ok (dict_update idx kvs)).
Proof.
  induction nums as [|num rest IH]; intros idx; simpl; [reflexivity|].
  unfold num_entry at 1, numId_of, num_abstractNumId.
  destruct (getitem (attrib num) (qn "w:numId")) as [numId|]; simpl; [|reflexivity].
  destruct (not_None (find num (qn "w:abstractNumId"))) as [ref|]; simpl; [|reflexivity].
  destruct (getitem (attrib ref) (qn "w:val")) as [abstractNumId|]; simpl; [|reflexivity].
  destruct (getitem tbl abstractNumId) as [fmts|]; simpl; [|reflexivity].
  rewrite IH. destruct (mapM (num_entry qn tbl) rest); reflexivity.
Qed.

Lemma mapM_entry_last {A V : Type} (key : A -> result string)
      (entry : A -> result (string * V)) (l : list A) (kvs : list (string * V))
      (a : A) (k : string) :
  (forall x kv, entry x = Ok kv -> key x = Ok (fst kv)) ->
  mapM entry l = Ok kvs ->
  last_with key l a k ->
  exists v pre post,
    entry a = Ok (k, v) /\ kvs = pre ++ (k, v) :: post
    /\ ~ In k (map fst post).
Proof.
  intros Hkey Hm (pre & post & -> & Hk & Hpost).
  rewrite mapM_app in Hm.
  apply bind_Ok_inv in Hm. destruct Hm as (kpre & Hpre & Hm).
  apply bind_Ok_inv in Hm. destruct Hm as (krest & Hrest & Hm).
  injection Hm as <-. simpl in Hrest.
  apply bind_Ok_inv in Hrest. destruct Hrest as ([k' v] & Ha & Hrest).
  apply bind_Ok_inv in Hrest. destruct Hrest as (kpost & Hposts & Hrest).
  injection Hrest as <-.
  pose proof (Hkey _ _ Ha) as Hk'. simpl in Hk'.
  assert (k' = k) by congruence. subst k'.
  exists v, kpre, kpost. repeat split; [assumption|].
  intros Hin. apply in_map_iff in Hin. destruct Hin as [[k1 v1] [Heq Hin]].
  simpl in Heq. subst k1.
  apply mapM_Ok_Forall2 in Hposts. clear - Hposts Hin Hpost Hkey.
  induction Hposts as [|b kv post kvs' Hb _ IH]; [contradiction|].
  destruct Hin as [->|Hin].
  - apply (Hpost b); [now left|]. now apply Hkey in Hb.
  - apply IH; [|assumption]. intros b' Hb'. apply Hpost. now right.
Qed.

Lemma abstractNum_entry_key a kv :
  abstractNum_entry qn a = Ok kv -> abstractNumId_of qn a = Ok (fst kv).
Proof.
  unfold abstractNum_entry. intros H.
  destruct (abstractNumId_of qn a); simpl in H; [|discriminate].
  destruct (numFmts_of qn a); simpl in H; [|discriminate].
  now injection H as <-.
Qed.

Lemma num_entry_key tbl num kv :
  num_entry qn tbl num = Ok kv -> numId_of qn num = Ok (fst kv).
Proof.
  unfold num_entry. intros H.
  destruct (numId_of qn num); simpl in H; [|discriminate].
  destruct (num_abstractNumId qn num); simpl in H; [|discriminate].
  destruct (getitem tbl _); simpl in H; [|discriminate].
  now injection H as <-.
Qed.

(** The table holds, under the identifier of a definition that is the
    last one with that identifier, its format names in document order. *)
Lemma abstract_table_last root tbl a id_ :
  abstractNumId2numFmts_of qn root = Ok tbl ->
  last_with (abstractNumId_of qn) (findall root (qn "w:abstractNum")) a id_ ->
  exists fmts, numFmts_of qn a = Ok fmts /\ dict_get tbl id_ = Some fmts.
Proof.
  unfold abstractNumId2numFmts_of. rewrite abstractNum_loop_eq.
  intros H Hlast.
  apply bind_Ok_inv in H. destruct H as (kvs & Hkvs & H). injection H as <-.
  destruct (@mapM_entry_last _ _ _ _ _ _ _ _ abstractNum_entry_key Hkvs Hlast)
    as (fmts & pre & post & Hentry & -> & Hnin).
  exists fmts. split.
  - unfold abstractNum_entry in Hentry.
    destruct (abstractNumId_of qn a); simpl in Hentry; [|discriminate].
    destruct (numFmts_of qn a); simpl in Hentry; congruence.
  - now apply dict_get_update_last.
Qed.

(** The table is built exactly when every definition has an identifier
    and every level of every definition declares a format. *)
Lemma abstract_table_total root :
  Forall (fun a => is_ok (abstractNum_entry qn a) = true)
         (findall root (qn "w:abstractNum")) <->
  exists tbl, abstractNumId2numFmts_of qn root = Ok tbl.
Proof.
  unfold abstractNumId2numFmts_of. rewrite abstractNum_loop_eq. split.
  - intros H. apply mapM_total in H. destruct H as [kvs ->]. simpl. eauto.
  - intros [tbl H]. apply bind_Ok_inv in H. destruct H as (kvs & Hkvs & _).
    eapply mapM_Ok_is_ok; eassumption.
Qed.

Lemma collect_numFmts_eq root :
  collect_numFmts qn (XmlBytes root)
  = (tbl <- abstractNumId2numFmts_of qn root ;;
     kvs <- mapM (num_entry qn tbl) (findall root (qn "w:num")) ;;
     Ok (dict_update [] kvs)).
Proof.
  unfold collect_numFmts. simpl.
  destruct (abstractNumId2numFmts_of qn root); simpl; [|reflexivity].
  apply num_loop_eq.
Qed.

(** The index is built when the table is and every list names itself
    and a definition of the table. *)
Lemma collect_numFmts_total root tbl :
  abstractNumId2numFmts_of qn root = Ok tbl ->
  Forall (fun num => is_ok (num_entry qn tbl num) = true)
         (findall root (qn "w:num")) ->
  exists idx, collect_numFmts qn (XmlBytes root) = Ok idx.
Proof.
  intros Htbl H. rewrite collect_numFmts_eq, Htbl. simpl.
  apply mapM_total in H. destruct H as [kvs ->]. simpl. eauto.
Qed.
End Numbering.
(** ** The index built by [collect_numFmts] *)

Section Index.
Variable qn : string -> string.

(** Under the identifier of a list that is the last one with that
    identifier, the index holds the table's entry for the definition the
    list refers to. *)
Lemma index_last root idx num numId :
  collect_numFmts qn (XmlBytes root) = Ok idx ->
  last_with (numId_of qn) (findall root (qn "w:num")) num numId ->
  exists tbl ref fmts,
    abstractNumId2numFmts_of qn root = Ok tbl
    /\ num_abstractNumId qn num = Ok ref
    /\ dict_get tbl ref = Some fmts
    /\ dict_get idx numId = Some fmts.
Proof.
  rewrite collect_numFmts_eq. intros H Hlast.
  apply bind_Ok_inv in H. destruct H as (tbl & Htbl & H).
  apply bind_Ok_inv in H. destruct H as (kvs & Hkvs & H). injection H as <-.
  destruct (@mapM_entry_last _ _ _ _ _ _ _ _ (@num_entry_key qn tbl) Hkvs Hlast)
    as (fmts & pre & post & Hentry & -> & Hnin).
  unfold num_entry in Hentry.
  destruct (numId_of qn num) as [k|]; simpl in Hentry; [|discriminate].
  destruct (num_abstractNumId qn num) as [ref|]; simpl in Hentry; [|discriminate].
  destruct (getitem tbl ref) as [fmts'|] eqn:Hget; simpl in Hentry; [|discriminate].
  injection Hentry as -> ->.
  exists tbl, ref, fmts. repeat split; try assumption.
  - now apply getitem_Ok.
  - now apply dict_get_update_last.
Qed.

(** Level numerals are distinct for distinct levels. *)
Lemma decimal_inj i j : decimal i = decimal j -> i = j.
Proof.
  unfold decimal. intros H.
  assert (Hu : Nat.to_uint i = Nat.to_uint j).
  { apply (f_equal NilEmpty.uint_of_string) in H.
    rewrite !NilEmpty.usu in H. congruence. }
  apply (f_equal Nat.of_uint) in Hu.
  now rewrite !DecimalNat.Unsigned.of_to in Hu.
Qed.

Lemma declares_level_inj lvl i j :
  declares_level qn lvl i -> declares_level qn lvl j -> i = j.
Proof.
  unfold declares_level. intros Hi Hj. apply decimal_inj. congruence.
Qed.

(** When the levels are written in ascending order, the format names in
    document order are indexed by level. *)
Lemma numFmts_of_ascending a n fmts :
  numFmts_of qn a = Ok fmts ->
  ascending_levels qn a n ->
  length fmts = S n
  /\ forall i lvl,
       In lvl (lvls_of qn a) -> declares_level qn lvl i ->
       exists f, lvl_numFmt qn lvl = Ok f /\ nth_error fmts i = Some f.
Proof.
  unfold numFmts_of. fold (lvls_of qn a). intros Hm [Hlen Hasc]. split.
  - apply mapM_Ok_length in Hm. congruence.
  - intros i lvl Hin Hi.
    apply In_nth_error in Hin. destruct Hin as [k Hk].
    pose proof (Hasc _ _ Hk) as Hk'.
    assert (i = k) by (eapply declares_level_inj; eassumption). subst k.
    eapply mapM_Ok_nth; eassumption.
Qed.
End Index.

(** ** Numbering resolution *)

(** C6. Whenever [collect_numFmts] builds its index, a list identifier
    whose [w:num] element (the last one carrying that identifier) refers
    to a definition present in the table of definitions is mapped by the
    index to exactly the format list the table holds for that definition:
    [numId2numFmts[numId] == abstractNumId2numFmts[abstractNumId]]. *)
Theorem index_maps_list_to_its_definition
        (qn : string -> string) (root : Element)
        (tbl idx : dict (list string)) (num : Element)
        (numId ref : string) (fmts : list string) :
  abstractNumId2numFmts_of qn root = Ok tbl ->
  collect_numFmts qn (XmlBytes root) = Ok idx ->
  last_with (numId_of qn) (findall root (qn "w:num")) num numId ->
  num_abstractNumId qn num = Ok ref ->
  dict_get tbl ref = Some fmts ->
  dict_get idx numId = Some fmts.
Proof.
  intros Htbl Hidx Hlast Href Hfmts.
  destruct (index_last _ Hidx Hlast) as (tbl' & ref' & fmts' & Ht & Hr & Hf & Hi).
  assert (tbl' = tbl) by congruence. assert (ref' = ref) by congruence.
  subst. congruence.
Qed.

Lemma index_maps_list_to_its_definition_witness :
  exists idx,
    collect_numFmts Demo.qn (XmlBytes Demo.numbering_ok) = Ok idx
    /\ dict_get idx "3" = Some ["decimal"; "lowerLetter"; "lowerRoman"].
Proof.
  exists [("1", ["decimal"; "lowerLetter"; "lowerRoman"]);
          ("2", ["bullet"]);
          ("3", ["decimal"; "lowerLetter"; "lowerRoman"])].
  split; [vm_compute; reflexivity|].
  apply (@index_maps_list_to_its_definition
           Demo.qn Demo.numbering_ok
           [("0", ["decimal"; "lowerLetter"; "lowerRoman"]); ("5", ["bullet"])]
           _ (Demo.num "3" "0") "3" "0").
  - vm_compute; reflexivity.
  - vm_compute; reflexivity.
  - exists [Demo.num "1" "0"; Demo.num "2" "5"], [].
    split; [vm_compute; reflexivity|].
    split; [vm_compute; reflexivity|].
    intros b [].
  - vm_compute; reflexivity.
  - vm_compute; reflexivity.
Defined.

(** X15. When the [w:lvl] children of a definition declare the levels
    0..n in ascending document order, the format list that
    [collect_numFmts] resolves for a list referring to the definition
    has length n+1, and its entry at index i is the format declared at
    level i: for definitions written in level order the list is indexed
    by [ilvl], as the docstring says. *)
Theorem format_list_indexed_by_level
        (qn : string -> string) (root : Element) (idx : dict (list string))
        (num : Element) (numId id_ : string) (a : Element) (n : nat) :
  collect_numFmts qn (XmlBytes root) = Ok idx ->
  last_with (numId_of qn) (findall root (qn "w:num")) num numId ->
  num_abstractNumId qn num = Ok id_ ->
  last_with (abstractNumId_of qn) (findall root (qn "w:abstractNum")) a id_ ->
  ascending_levels qn a n ->
  exists fmts,
    dict_get idx numId = Some fmts
    /\ length fmts = S n
    /\ forall i lvl,
         In lvl (lvls_of qn a) -> declares_level qn lvl i ->
         exists f, lvl_numFmt qn lvl = Ok f /\ nth_error fmts i = Some f.
Proof.
  intros Hidx Hnum Href Ha Hasc.
  destruct (index_last _ Hidx Hnum) as (tbl & ref & fmts & Ht & Hr & Hf & Hi).
  assert (ref = id_) by congruence. subst ref.
  destruct (abstract_table_last _ Ht Ha) as (fmts' & Hfm & Hget).
  assert (fmts' = fmts) by congruence. subst fmts'.
  exists fmts. split; [assumption|].
  eapply numFmts_of_ascending; eassumption.
Qed.

Lemma format_list_indexed_by_level_witness :
  exists fmts,
    dict_get [("1", ["decimal"; "lowerLetter"; "lowerRoman"]);
              ("2", ["bullet"]);
              ("3", ["decimal"; "lowerLetter"; "lowerRoman"])] "1" = Some fmts
    /\ length fmts = 3
    /\ forall i lvl,
         In lvl (lvls_of Demo.qn
                   (Demo.abstractNum "0"
                      [Demo.lvl "0" "decimal"; Demo.lvl "1" "lowerLetter";
                       Demo.lvl "2" "lowerRoman"])) ->
         declares_level Demo.qn lvl i ->
         exists f, lvl_numFmt Demo.qn lvl = Ok f /\ nth_error fmts i = Some f.
Proof.
  apply (@format_list_indexed_by_level
           Demo.qn Demo.numbering_ok _ (Demo.num "1" "0") "1" "0").
  - vm_compute; reflexivity.
  - exists [], [Demo.num "2" "5"; Demo.num "3" "0"].
    split; [vm_compute; reflexivity|].
    split; [vm_compute; reflexivity|].
    intros b [<-|[<-|[]]]; vm_compute; discriminate.
  - vm_compute; reflexivity.
  - exists [], [Demo.abstractNum "5" [Demo.lvl "0" "bullet"]].
    split; [vm_compute; reflexivity|].
    split; [vm_compute; reflexivity|].
    intros b [<-|[]]; vm_compute; discriminate.
  - split; [vm_compute; reflexivity|].
    intros [|[|[|k]]] lvl H;
      [ | | | destruct k; vm_compute in H; discriminate ];
      vm_compute in H; injection H as <-; vm_compute; reflexivity.
Defined.

(** C5. The definition declares the contiguous levels 0..1, level 1
    before level 0. The list [collect_numFmts] resolves for the list that
    refers to it has "bullet" at index 0, while the format declared at
    level 0 is "decimal": the result is not indexed by [ilvl], as the
    docstring of [collect_numFmts] says it is. *)
Lemma format_list_by_level_counterexample :
  contiguous_levels Demo.qn Demo.abstractNum_swapped 1
  /\ collect_numFmts Demo.qn (XmlBytes Demo.numbering_swapped)
     = Ok [("1", ["bullet"; "decimal"])]
  /\ In (Demo.lvl "0" "decimal") (lvls_of Demo.qn Demo.abstractNum_swapped)
  /\ declares_level Demo.qn (Demo.lvl "0" "decimal") 0
  /\ lvl_numFmt Demo.qn (Demo.lvl "0" "decimal") = Ok "decimal"
  /\ nth_error ["bullet"; "decimal"] 0 <> Some "decimal".
Proof.
  repeat split.
  - intros [|[|i]] Hi.
    + exists (Demo.lvl "0" "decimal"). split; [right; left|]; reflexivity.
    + exists (Demo.lvl "1" "bullet"). split; [left|]; reflexivity.
    + lia.
  - right. left. reflexivity.
  - discriminate.
Qed.

(** C4, as the code has it. A gap in the declared level indices of a
    definition is not detected: [collect_numFmts] never reads [w:ilvl].
    When every definition carries an identifier, every level a format,
    and every list resolves, [collect_numFmts] returns its index, and a
    list referring to the definition with the gap receives the formats of
    the definition's [w:lvl] children in document order, one per child. *)
Theorem level_gap_is_not_detected
        (qn : string -> string) (root a : Element) (id_ : string) (i : nat) :
  missing_level qn a i ->
  last_with (abstractNumId_of qn) (findall root (qn "w:abstractNum")) a id_ ->
  Forall (fun b => is_ok (abstractNum_entry qn b) = true)
         (findall root (qn "w:abstractNum")) ->
  (forall tbl, abstractNumId2numFmts_of qn root = Ok tbl ->
               Forall (fun num => is_ok (num_entry qn tbl num) = true)
                      (findall root (qn "w:num"))) ->
  exists idx fmts,
    collect_numFmts qn (XmlBytes root) = Ok idx
    /\ mapM (lvl_numFmt qn) (lvls_of qn a) = Ok fmts
    /\ length fmts = length (lvls_of qn a)
    /\ forall num numId,
         last_with (numId_of qn) (findall root (qn "w:num")) num numId ->
         num_abstractNumId qn num = Ok id_ ->
         dict_get idx numId = Some fmts.
Proof.
  intros _ Ha Habs Hnums.
  apply abstract_table_total in Habs. destruct Habs as [tbl Htbl].
  destruct (collect_numFmts_total qn root Htbl (Hnums _ Htbl)) as [idx Hidx].
  destruct (abstract_table_last _ Htbl Ha) as (fmts & Hfm & Hget).
  exists idx, fmts. repeat split; try assumption.
  - eapply mapM_Ok_length; eassumption.
  - intros num numId Hnum Href.
    destruct (index_last _ Hidx Hnum) as (tbl' & ref & fmts' & Ht & Hr & Hf & Hi).
    assert (tbl' = tbl) by congruence. assert (ref = id_) by congruence.
    subst. congruence.
Qed.

Lemma level_gap_is_not_detected_witness :
  exists idx fmts,
    collect_numFmts Demo.qn (XmlBytes Demo.numbering_gap) = Ok idx
    /\ mapM (lvl_numFmt Demo.qn) (lvls_of Demo.qn Demo.abstractNum_gap) = Ok fmts
    /\ length fmts = length (lvls_of Demo.qn Demo.abstractNum_gap)
    /\ forall num numId,
         last_with (numId_of Demo.qn)
                   (findall Demo.numbering_gap (Demo.qn "w:num")) num numId ->
         num_abstractNumId Demo.qn num = Ok "0" ->
         dict_get idx numId = Some fmts.
Proof.
  apply (@level_gap_is_not_detected Demo.qn Demo.numbering_gap
           Demo.abstractNum_gap "0" 1).
  - split.
    + intros lvl [<-|[<-|[]]]; vm_compute; discriminate.
    + exists 2, (Demo.lvl "2" "bullet").
      split; [lia|]. split; [right; left|]; reflexivity.
  - exists [], []. split; [vm_compute; reflexivity|].
    split; [vm_compute; reflexivity|]. intros b [].
  - vm_compute. repeat constructor.
  - intros tbl H. vm_compute in H. injection H as <-.
    vm_compute. repeat constructor.
Defined.

(** C4 as stated fails: the definition declares levels 0 and 2 and no
    level 1, and [collect_numFmts] returns a format list for it. *)
Lemma level_gap_counterexample :
  missing_level Demo.qn Demo.abstractNum_gap 1
  /\ collect_numFmts Demo.qn (XmlBytes Demo.numbering_gap)
     = Ok [("1", ["decimal"; "bullet"])].
Proof.
  split; [split|].
  - intros lvl [<-|[<-|[]]]; vm_compute; discriminate.
  - exists 2, (Demo.lvl "2" "bullet").
    split; [lia|]. split; [right; left|]; reflexivity.
  - vm_compute; reflexivity.
Qed.

(** ** Archives *)

Lemma NameToInfo_None l name :
  NameToInfo l name = None <-> ~ In name (map fst l).
Proof.
  induction l as [|[n b] l IH]; simpl; [tauto|].
  destruct (NameToInfo l name) as [b'|].
  - split; [discriminate|]. intros H. exfalso. apply H. right.
    destruct (in_dec string_dec name (map fst l)) as [Hin|Hnin]; [assumption|].
    apply IH in Hnin. discriminate.
  - destruct (String.eqb_spec name n) as [->|Hne].
    + split; [discriminate|]. intros H. exfalso. apply H. now left.
    + split; [|reflexivity]. intros _ [Heq|Hin]; [congruence|].
      now apply IH in Hin.
Qed.

Lemma read_KeyError zipf name :
  ~ In name (namelist zipf) -> read zipf name = Raise KeyError.
Proof.
  unfold read, namelist. intros H. apply NameToInfo_None in H. now rewrite H.
Qed.

Lemma read_Raise zipf name e : read zipf name = Raise e -> e = KeyError.
Proof. unfold read. destruct (NameToInfo _ _); congruence. Qed.

(** ** The loop of [collect_rels] *)

Lemma rels_loop_eq zipf names : forall d,
  rels_loop zipf names d
  = (kvs <- mapM (rels_entry zipf) names ;; Ok (dict_update d kvs)).
Proof.
  induction names as [|n rest IH]; intros d; simpl; [reflexivity|].
  unfold rels_entry at 1.
  destruct (read zipf n) as [xml|]; simpl; [|reflexivity].
  destruct (fromstring xml) as [root|]; simpl; [|reflexivity].
  rewrite IH. destruct (mapM (rels_entry zipf) rest); reflexivity.
Qed.

Lemma rels_entry_key zipf n kv : rels_entry zipf n = Ok kv -> fst kv = n.
Proof.
  unfold rels_entry. intros H.
  destruct (read zipf n) as [xml|]; simpl in H; [|discriminate].
  destruct (fromstring xml); simpl in H; [|discriminate].
  now injection H as <-.
Qed.

Lemma mapM_rels_entry_keys zipf names kvs :
  mapM (rels_entry zipf) names = Ok kvs -> map fst kvs = names.
Proof.
  intros H. apply mapM_Ok_Forall2 in H.
  induction H as [|n kv names kvs Hn _ IH]; [reflexivity|].
  simpl. f_equal; [now apply rels_entry_key in Hn | assumption].
Qed.

(** The keys of the mapping are the members whose name ends in [.rels]. *)
Lemma collect_rels_keys zipf path2rels k :
  collect_rels zipf = Ok path2rels ->
  In k (keys path2rels) <-> In k (namelist zipf) /\ is_rels k = true.
Proof.
  unfold collect_rels. rewrite rels_loop_eq. intros H.
  apply bind_Ok_inv in H. destruct H as (kvs & Hkvs & H). injection H as <-.
  rewrite keys_update, (mapM_rels_entry_keys _ _ Hkvs), filter_In.
  simpl. tauto.
Qed.

(** The mapping is built exactly when every such member is well-formed. *)
Lemma collect_rels_total zipf :
  Forall (fun n => is_ok (rels_entry zipf n) = true)
         (filter is_rels (namelist zipf)) <->
  exists path2rels, collect_rels zipf = Ok path2rels.
Proof.
  unfold collect_rels. rewrite rels_loop_eq. split.
  - intros H. apply mapM_total in H. destruct H as [kvs ->]. simpl. eauto.
  - intros [d H]. apply bind_Ok_inv in H. destruct H as (kvs & Hkvs & _).
    eapply mapM_Ok_is_ok; eassumption.
Qed.

(** ** The steps of [get_context] *)

Lemma flatten_loop_eq items : forall files,
  flatten_loop items files
  = files ++ map (fun kx => with_dir (snd kx) (dirname (fst kx)))
                 (entries_of items).
Proof.
  induction items as [|[k v] rest IH]; intros files; simpl.
  - now rewrite app_nil_r.
  - rewrite IH, map_app, map_map, <- app_assoc. reflexivity.
Qed.

Lemma dict_get_map_VStr (x : AttribDict) a :
  dict_get (map (fun kv => (fst kv, VStr (snd kv))) x) a
  = option_map VStr (dict_get x a).
Proof.
  unfold dict_get. induction x as [|[k v] x IH]; simpl; [reflexivity|].
  destruct (String.eqb a k); [reflexivity | assumption].
Qed.

Lemma with_dir_dir x d : dict_get (with_dir x d) "dir" = Some (VStr d).
Proof. apply dict_get_setitem_same. Qed.

Lemma with_dir_other x d a :
  a <> "dir" -> dict_get (with_dir x d) a = option_map VStr (dict_get x a).
Proof.
  intros Ha. unfold with_dir.
  rewrite dict_get_setitem_other by assumption. apply dict_get_map_VStr.
Qed.

Lemma attach_rels_Ok gpr path2rels file file' :
  attach_rels gpr path2rels file = Ok file' ->
  file' = file \/ exists rels, file' = setitem file "rels" (VRels rels).
Proof.
  unfold attach_rels. intros H.
  destruct (gpr file) as [p|e]; simpl in H.
  - destruct (getitem path2rels p) as [rels|e] eqn:E; simpl in H.
    + injection H as <-. right. eauto.
    + apply getitem_Raise in E. subst e. simpl in H. injection H as <-. now left.
  - destruct e; simpl in H; try discriminate. injection H as <-. now left.
Qed.

Lemma attach_rels_other gpr path2rels file file' a :
  attach_rels gpr path2rels file = Ok file' ->
  a <> "rels" -> dict_get file' a = dict_get file a.
Proof.
  intros H Ha. apply attach_rels_Ok in H. destruct H as [->|[rels ->]].
  - reflexivity.
  - now apply dict_get_setitem_other.
Qed.

Lemma attach_rels_total gpr path2rels file :
  (forall e, gpr file = Raise e -> e = KeyError) ->
  is_ok (attach_rels gpr path2rels file) = true.
Proof.
  unfold attach_rels. intros H.
  destruct (gpr file) as [p|e]; simpl.
  - destruct (getitem path2rels p) as [rels|e] eqn:E; simpl; [reflexivity|].
    apply getitem_Raise in E. now subst e.
  - now rewrite (H e eq_refl).
Qed.

(** What [get_context] returns, and from what. *)
Lemma get_context_Ok_inv qn gpr zipf ctx :
  get_context qn gpr zipf = Ok ctx ->
  exists path2rels files,
    collect_rels zipf = Ok path2rels
    /\ mapM (attach_rels gpr path2rels) (flatten_loop path2rels []) = Ok files
    /\ ((ctx = [("files", CFiles files)]
         /\ (xml <- read zipf numbering_part ;; collect_numFmts qn xml)
            = Raise KeyError)
        \/ exists xml numId2numFmts,
             read zipf numbering_part = Ok xml
             /\ collect_numFmts qn xml = Ok numId2numFmts
             /\ ctx = with_numbering files numId2numFmts).
Proof.
  unfold get_context. intros H.
  apply bind_Ok_inv in H. destruct H as (path2rels & Hrels & H).
  apply bind_Ok_inv in H. destruct H as (files & Hfiles & H).
  exists path2rels, files. split; [assumption|]. split; [assumption|].
  destruct (read zipf numbering_part) as [xml|e] eqn:Hread; simpl in H |- *.
  - destruct (collect_numFmts qn xml) as [idx|e] eqn:Hnum; simpl in H |- *.
    + injection H as <-. right. exists xml, idx.
      split; [first [assumption|reflexivity]|].
      split; [first [assumption|reflexivity] | reflexivity].
    + destruct e; simpl in H; try discriminate. injection H as <-. now left.
  - apply read_Raise in Hread. subst e. simpl in H. injection H as <-. now left.
Qed.

(** [get_context] returns when every part it reads is well-formed. *)
Lemma get_context_total qn gpr zipf :
  Forall (fun n => is_ok (rels_entry zipf n) = true)
         (filter is_rels (namelist zipf)) ->
  (forall path2rels file e,
      collect_rels zipf = Ok path2rels ->
      In file (flatten_loop path2rels []) ->
      gpr file = Raise e -> e = KeyError) ->
  (forall xml e,
      read zipf numbering_part = Ok xml ->
      collect_numFmts qn xml = Raise e -> e = KeyError) ->
  exists ctx, get_context qn gpr zipf = Ok ctx.
Proof.
  intros Hrels Hgpr Hnum. apply collect_rels_total in Hrels.
  destruct Hrels as [path2rels Hrels].
  unfold get_context. rewrite Hrels. simpl.
  destruct (@mapM_total _ _ (attach_rels gpr path2rels)
                        (flatten_loop path2rels [])) as [files Hfiles].
  { apply Forall_forall. intros file Hin. apply attach_rels_total.
    intros e He. eapply Hgpr; eassumption. }
  unfold PyDict.items. rewrite Hfiles. simpl.
  destruct (read zipf numbering_part) as [xml|e] eqn:Hread; simpl.
  - destruct (collect_numFmts qn xml) as [idx|e] eqn:Hidx; simpl; [eauto|].
    rewrite (Hnum _ _ eq_refl Hidx). simpl. eauto.
  - apply read_Raise in Hread. subst e. simpl. eauto.
Qed.

(** The flattened records, one per relationship entry and in the order
    of the entries. *)
Lemma get_context_files qn gpr zipf ctx path2rels :
  get_context qn gpr zipf = Ok ctx ->
  collect_rels zipf = Ok path2rels ->
  exists files,
    getitem ctx "files" = Ok (CFiles files)
    /\ Forall2 record_of (entries_of path2rels) files.
Proof.
  intros H Hrels. apply get_context_Ok_inv in H.
  destruct H as (path2rels' & files & Hrels' & Hfiles & Hctx).
  assert (path2rels' = path2rels) by congruence. subst path2rels'.
  exists files. split.
  - destruct Hctx as [[-> _] | (xml & idx & _ & _ & ->)]; reflexivity.
  - rewrite flatten_loop_eq in Hfiles. simpl in Hfiles.
    apply mapM_Ok_Forall2 in Hfiles. clear - Hfiles.
    remember (entries_of path2rels) as entries eqn:E. clear E.
    revert files Hfiles.
    induction entries as [|kx entries IH]; intros files H; simpl in H;
      inversion H as [|f file fs files' Hf Hfs]; subst; constructor.
    + split.
      * rewrite (attach_rels_other _ _ _ Hf) by discriminate. apply with_dir_dir.
      * intros a Hdir Hrels.
        rewrite (attach_rels_other _ _ _ Hf) by assumption.
        now apply with_dir_other.
    + now apply IH.
Qed.

(** ** Descriptor paths *)

Lemma rsplit_slash_no_slash name :
  no_slash name -> rsplit_slash name = (EmptyString, name).
Proof.
  unfold no_slash. induction name as [|c name IH]; simpl; [reflexivity|].
  intros H. apply andb_true_iff in H. destruct H as [Hc Hn].
  rewrite (IH Hn). apply negb_true_iff in Hc. rewrite Hc. reflexivity.
Qed.

Lemma rsplit_slash_app s name :
  no_slash name ->
  rsplit_slash (s ++ String slash name) = ((s ++ String slash EmptyString)%string, name).
Proof.
  intros Hn. induction s as [|c s IH]; simpl.
  - rewrite (rsplit_slash_no_slash Hn). reflexivity.
  - rewrite IH. destruct s; simpl; now rewrite orb_true_r.
Qed.

Lemma all_slashes_rels p : all_slashes (p ++ "_rels/") = false.
Proof.
  induction p as [|c p IH]; simpl; [reflexivity|].
  rewrite IH. apply andb_false_r.
Qed.

Lemma rstrip_slash_rels p : rstrip_slash (p ++ "_rels/") = (p ++ "_rels")%string.
Proof.
  induction p as [|c p IH]; [reflexivity|].
  change (String c p ++ "_rels/")%string with (String c (p ++ "_rels/")).
  unfold rstrip_slash; fold rstrip_slash.
  change (all_slashes (String c (p ++ "_rels/")))
    with (Ascii.eqb c slash && all_slashes (p ++ "_rels/"))%bool.
  rewrite all_slashes_rels, andb_false_r, IH. reflexivity.
Qed.

(** The directory of a descriptor is the [_rels] folder it lies in. *)
Lemma dirname_of_descriptor p name :
  no_slash name ->
  dirname (p ++ "_rels/" ++ name) = (p ++ "_rels")%string.
Proof.
  intros Hn. unfold dirname.
  assert (E : (p ++ "_rels/" ++ name)%string
              = ((p ++ "_rels") ++ String slash name)%string).
  { clear. induction p as [|c p IH]; [reflexivity | simpl in *; now rewrite IH]. }
  rewrite E, (rsplit_slash_app _ Hn). simpl fst.
  assert (E' : ((p ++ "_rels") ++ String slash EmptyString)%string
               = (p ++ "_rels/")%string).
  { clear. induction p as [|c p IH]; [reflexivity | simpl in *; now rewrite IH]. }
  rewrite E', all_slashes_rels, rstrip_slash_rels.
  destruct p; reflexivity.
Qed.

Lemma basename_no_slash s : no_slash (basename s).
Proof.
  unfold basename, no_slash. induction s as [|c s IH]; [reflexivity|].
  simpl. destruct (rsplit_slash s) as [h t]. simpl in IH.
  destruct (Ascii.eqb c slash) eqn:Ec; simpl; [assumption|].
  destruct (String.eqb h EmptyString); simpl; [|assumption].
  now rewrite Ec, IH.
Qed.

Lemma rsplit_slash_append d k :
  no_slash k ->
  rsplit_slash (d ++ k)
  = (fst (rsplit_slash d), (snd (rsplit_slash d) ++ k)%string).
Proof.
  intros Hk. induction d as [|c d IH]; simpl.
  - apply rsplit_slash_no_slash. assumption.
  - rewrite IH. destruct (rsplit_slash d) as [h t]. simpl.
    destruct (Ascii.eqb c slash || negb (String.eqb h EmptyString))%bool;
      reflexivity.
Qed.

Lemma append_assoc_string (a b c : string) :
  ((a ++ b) ++ c)%string = (a ++ b ++ c)%string.
Proof. induction a as [|x a IH]; simpl; [reflexivity | now rewrite IH]. Qed.

Lemma no_slash_app a b : no_slash a -> no_slash b -> no_slash (a ++ b).
Proof.
  unfold no_slash. intros Ha Hb. induction a as [|c a IH]; [assumption|].
  simpl in *. apply andb_true_iff in Ha. destruct Ha as [Hc Ha].
  now rewrite Hc, IH.
Qed.

Lemma rsplit_slash_cat s :
  (fst (rsplit_slash s) ++ snd (rsplit_slash s))%string = s.
Proof.
  induction s as [|c s IH]; [reflexivity|]. simpl.
  destruct (rsplit_slash s) as [h t]. simpl in IH.
  destruct (Ascii.eqb c slash || negb (String.eqb h EmptyString))%bool eqn:E;
    simpl.
  - now rewrite IH.
  - apply orb_false_iff in E. destruct E as [_ E].
    apply negb_false_iff, String.eqb_eq in E. subst h. simpl in IH.
    now rewrite IH.
Qed.

Lemma rsplit_slash_all_slashes s :
  all_slashes s = true -> rsplit_slash s = (s, EmptyString).
Proof.
  induction s as [|c s IH]; [reflexivity|]. simpl. intros H.
  apply andb_true_iff in H. destruct H as [Hc Hs].
  now rewrite (IH Hs), Hc.
Qed.

Lemma all_slashes_app a b :
  all_slashes (a ++ b) = (all_slashes a && all_slashes b)%bool.
Proof.
  induction a as [|c a IH]; [reflexivity|]. simpl.
  now rewrite IH, andb_assoc.
Qed.

Lemma rstrip_slash_all_slashes s :
  all_slashes s = true -> rstrip_slash s = EmptyString.
Proof. destruct s as [|c s]; [reflexivity|]. intros H. simpl in *. now rewrite H. Qed.

Lemma basename_cons_nonempty c s :
  basename s <> EmptyString -> basename (String c s) <> EmptyString.
Proof.
  unfold basename. simpl. destruct (rsplit_slash s) as [h t]. simpl.
  destruct (Ascii.eqb c slash || negb (String.eqb h EmptyString))%bool;
    simpl; [auto | discriminate].
Qed.

(** What [rstrip] leaves of a path that is not made of slashes ends in a
    name. *)
Lemma basename_rstrip_slash h :
  all_slashes h = false -> basename (rstrip_slash h) <> EmptyString.
Proof.
  induction h as [|c h IH]; [discriminate|]. intros H.
  unfold rstrip_slash; fold rstrip_slash. rewrite H.
  destruct (all_slashes h) eqn:Eh.
  - rewrite (rstrip_slash_all_slashes _ Eh).
    simpl in H. rewrite Eh, andb_true_r in H.
    unfold basename. simpl. rewrite H. simpl. discriminate.
  - apply basename_cons_nonempty. now apply IH.
Qed.

(** A directory name is made of slashes (or empty), or ends in a name. *)
Lemma dirname_cases P :
  all_slashes (dirname P) = true \/ basename (dirname P) <> EmptyString.
Proof.
  unfold dirname. set (head := fst (rsplit_slash P)).
  destruct (String.eqb_spec head EmptyString) as [->|Hne]; simpl; [now left|].
  destruct (all_slashes head) eqn:E; simpl; [now left|].
  right. now apply basename_rstrip_slash.
Qed.

Lemma basename_nonempty_not_all_slashes s :
  basename s <> EmptyString -> all_slashes s = false.
Proof.
  intros H. destruct (all_slashes s) eqn:E; [|reflexivity].
  unfold basename in H. rewrite (rsplit_slash_all_slashes _ E) in H.
  now contradiction H.
Qed.

Lemma rstrip_slash_app_slash s :
  basename s <> EmptyString ->
  rstrip_slash (s ++ String slash EmptyString) = s.
Proof.
  induction s as [|c s IH]; intros H; [now contradiction H|].
  change (String c s ++ String slash EmptyString)%string
    with (String c (s ++ String slash EmptyString)).
  unfold rstrip_slash; fold rstrip_slash.
  change (all_slashes (String c (s ++ String slash EmptyString)))
    with (Ascii.eqb c slash && all_slashes (s ++ String slash EmptyString))%bool.
  rewrite all_slashes_app. simpl (all_slashes (String slash EmptyString)).
  rewrite andb_true_r.
  pose proof (basename_nonempty_not_all_slashes _ H) as Hall. simpl in Hall.
  rewrite Hall. f_equal.
  destruct (String.eqb_spec (basename s) EmptyString) as [E|E]; [|now apply IH].
  assert (s = EmptyString) as ->; [|reflexivity].
  unfold basename in H, E. simpl in H.
  pose proof (rsplit_slash_cat s) as Hcat.
  destruct (rsplit_slash s) as [h t]. simpl in *. subst t.
  destruct (Ascii.eqb c slash || negb (String.eqb h EmptyString))%bool eqn:Ec;
    simpl in H; [now contradiction H|].
  apply orb_false_iff in Ec. destruct Ec as [_ Ec].
  apply negb_false_iff, String.eqb_eq in Ec. subst h. now rewrite <- Hcat.
Qed.

(** The [_rels] folder of a directory. *)
Lemma path_join_rels_cases D :
  (path_join D "_rels" = (D ++ "_rels")%string
   /\ (D = EmptyString \/ basename D = EmptyString))
  \/ (path_join D "_rels" = (D ++ String slash "_rels")%string
      /\ D <> EmptyString /\ basename D <> EmptyString).
Proof.
  unfold path_join. simpl.
  destruct (String.eqb_spec D EmptyString) as [->|HD]; simpl; [left; auto|].
  destruct (String.eqb_spec (basename D) EmptyString) as [E|E];
    [left; auto | right; auto].
Qed.

(** The descriptor of a part lies in the [_rels] folder of the directory
    of the part. *)
Lemma dirname_descriptor_of P :
  dirname (descriptor_of P) = path_join (dirname P) "_rels".
Proof.
  unfold descriptor_of. set (D := dirname P).
  set (b := (basename P ++ ".rels")%string).
  assert (Hb : no_slash b)
    by (apply no_slash_app; [apply basename_no_slash | reflexivity]).
  assert (Hb0 : exists c b', b = String c b' /\ Ascii.eqb c slash = false).
  { subst b. destruct (basename P) as [|c r] eqn:E.
    - exists "."%char, "rels". split; reflexivity.
    - exists c, (r ++ ".rels")%string. split; [reflexivity|].
      pose proof (basename_no_slash P) as Hn. rewrite E in Hn.
      unfold no_slash in Hn. simpl in Hn. apply andb_true_iff in Hn.
      destruct Hn as [Hc _]. now apply negb_true_iff in Hc. }
  destruct Hb0 as (c & b' & Eb & Hc).
  assert (Hjoin : forall p,
             path_join (p ++ "_rels") b = (p ++ "_rels/" ++ b)%string).
  { intros p. unfold path_join. rewrite Eb, Hc, <- Eb.
    assert (Hne : String.eqb (p ++ "_rels") EmptyString = false)
      by (destruct p; reflexivity).
    assert (Hbn : basename (p ++ "_rels") = (basename p ++ "_rels")%string).
    { unfold basename. now rewrite (@rsplit_slash_append p "_rels" eq_refl). }
    rewrite Hne, Hbn. simpl orb.
    assert (Hbe : String.eqb (basename p ++ "_rels") EmptyString = false)
      by (destruct (basename p); reflexivity).
    rewrite Hbe. exact (append_assoc_string p "_rels" (String slash b)). }
  destruct (path_join_rels_cases D) as [[-> _] | [-> _]].
  - rewrite Hjoin. now apply dirname_of_descriptor.
  - replace (D ++ String slash "_rels")%string
      with ((D ++ String slash EmptyString) ++ "_rels")%string
      by exact (append_assoc_string D (String slash EmptyString) "_rels").
    rewrite Hjoin. now apply dirname_of_descriptor.
Qed.

(** The parent of that folder is the directory of the part. *)
Lemma dirname_rels_folder P :
  dirname (path_join (dirname P) "_rels") = dirname P.
Proof.
  set (D := dirname P).
  destruct (path_join_rels_cases D) as [[-> Hends] | (-> & HD & Hbn)].
  - assert (Hall : all_slashes D = true).
    { destruct (dirname_cases P) as [H|H]; [exact H|]. fold D in H.
      destruct Hends as [->|E]; [reflexivity | contradiction]. }
    unfold dirname at 1.
    rewrite (@rsplit_slash_append D "_rels" eq_refl).
    rewrite (rsplit_slash_all_slashes _ Hall). simpl fst.
    rewrite Hall. now rewrite andb_false_r.
  - unfold dirname at 1.
    rewrite (@rsplit_slash_app D "_rels" eq_refl). simpl fst.
    rewrite all_slashes_app, (basename_nonempty_not_all_slashes _ Hbn).
    simpl andb.
    assert (Hne : String.eqb (D ++ String slash EmptyString) EmptyString = false)
      by (destruct D; reflexivity).
    rewrite Hne. simpl. now apply rstrip_slash_app_slash.
Qed.

(** ** Context assembly *)

(** A [KeyError] raised while the numbering part is resolved leaves the
    context as it is for an archive without numbering part. *)
Lemma get_context_swallows_KeyError qn gpr zipf xml :
  read zipf numbering_part = Ok xml ->
  collect_numFmts qn xml = Raise KeyError ->
  get_context qn gpr zipf
  = (path2rels <- collect_rels zipf ;;
     files <- mapM (attach_rels gpr path2rels) (flatten_loop path2rels []) ;;
     Ok [("files", CFiles files)]).
Proof.
  intros Hread Hnum. unfold get_context. rewrite Hread. simpl. rewrite Hnum.
  reflexivity.
Qed.

(** A list that refers to a definition absent from the table makes
    [collect_numFmts] raise [KeyError], when nothing before it raises. *)
Lemma dangling_reference_KeyError qn root tbl pre num post numId ref :
  abstractNumId2numFmts_of qn root = Ok tbl ->
  findall root (qn "w:num") = pre ++ num :: post ->
  is_ok (mapM (num_entry qn tbl) pre) = true ->
  numId_of qn num = Ok numId ->
  num_abstractNumId qn num = Ok ref ->
  dict_get tbl ref = None ->
  collect_numFmts qn (XmlBytes root) = Raise KeyError.
Proof.
  intros Htbl Hnums Hpre HnumId Href Hget.
  rewrite collect_numFmts_eq, Htbl. simpl. rewrite Hnums, mapM_app. simpl.
  destruct (mapM (num_entry qn tbl) pre); [|discriminate]. simpl.
  unfold num_entry at 1. rewrite HnumId, Href. simpl.
  unfold getitem, PyDict.getitem. unfold dict_get in Hget. rewrite Hget.
  reflexivity.
Qed.

(** C1. The document has a numbering part in which the list "1" refers
    to the definition "7", which does not exist. [collect_numFmts] raises
    [KeyError]; [get_context] returns, and what it returns is, whatever
    [get_path_rels] does, the context of the same document without its
    numbering part: the numbering fields are absent and no error reaches
    the caller. *)
Theorem dangling_reference_is_swallowed :
  collect_numFmts Demo.qn (XmlBytes Demo.numbering_dangling) = Raise KeyError
  /\ (exists ctx,
        get_context Demo.qn Demo.get_path_rels Demo.docx_dangling = Ok ctx
        /\ getitem ctx "numId2numFmts" = Raise KeyError
        /\ getitem ctx "numId2count" = Raise KeyError)
  /\ forall gpr,
       get_context Demo.qn gpr Demo.docx_dangling
       = get_context Demo.qn gpr Demo.docx_basic.
Proof.
  split; [vm_compute; reflexivity|]. split.
  - eexists. split; [vm_compute; reflexivity|]. split; reflexivity.
  - intros gpr.
    rewrite (@get_context_swallows_KeyError
               Demo.qn gpr Demo.docx_dangling (XmlBytes Demo.numbering_dangling))
      by (vm_compute; reflexivity).
    unfold get_context.
    change (collect_rels Demo.docx_basic) with (collect_rels Demo.docx_dangling).
    change (read Demo.docx_basic numbering_part) with (@Raise Bytes KeyError).
    reflexivity.
Qed.

(** C2. When the archive has no member [word/numbering.xml], the context
    [get_context] returns holds the files only: reading [numId2numFmts]
    or [numId2count] raises [KeyError]; neither is an empty mapping. *)
Theorem numbering_fields_absent_without_numbering_part
        (qn : string -> string)
        (gpr : ExpandedAttribDict -> result string)
        (zipf : ZipFile) (ctx : Context) :
  ~ In numbering_part (namelist zipf) ->
  get_context qn gpr zipf = Ok ctx ->
  (exists files, ctx = [("files", CFiles files)])
  /\ getitem ctx "numId2numFmts" = Raise KeyError
  /\ getitem ctx "numId2count" = Raise KeyError.
Proof.
  intros Hnin H. apply get_context_Ok_inv in H.
  destruct H as (path2rels & files & _ & _ & [[-> _] | (xml & idx & Hread & _)]).
  - split; [eauto|]. split; reflexivity.
  - rewrite (read_KeyError _ _ Hnin) in Hread. discriminate.
Qed.

Lemma numbering_fields_absent_without_numbering_part_witness :
  exists ctx,
    get_context Demo.qn Demo.get_path_rels Demo.docx_basic = Ok ctx
    /\ getitem ctx "numId2numFmts" = Raise KeyError
    /\ getitem ctx "numId2count" = Raise KeyError.
Proof.
  eexists. split; [vm_compute; reflexivity|].
  eapply (@numbering_fields_absent_without_numbering_part
            Demo.qn Demo.get_path_rels Demo.docx_basic).
  - vm_compute. intros [H|[H|[]]]; discriminate.
  - vm_compute; reflexivity.
Defined.

(** C7. When the context [get_context] returns has a numbering index, it
    has a counter table; the keys of the table are the keys of the index,
    in the same order; and under every key of the index the table holds a
    counter that reads 0 at every level. *)
Theorem counters_match_index_and_read_zero
        (qn : string -> string)
        (gpr : ExpandedAttribDict -> result string)
        (zipf : ZipFile) (ctx : Context) (idx : dict (list string)) :
  get_context qn gpr zipf = Ok ctx ->
  getitem ctx "numId2numFmts" = Ok (CNumFmts idx) ->
  exists cnt,
    getitem ctx "numId2count" = Ok (CCount cnt)
    /\ keys cnt = keys idx
    /\ forall numId,
         In numId (keys idx) ->
         exists d,
           getitem cnt numId = Ok d
           /\ forall lvl, fst (defaultdict_getitem d lvl) = 0%Z.
Proof.
  intros H Hidx. apply get_context_Ok_inv in H.
  destruct H as (path2rels & files & _ & _ & [[-> _] | (xml & idx' & _ & _ & ->)]).
  - discriminate.
  - injection Hidx as ->.
    exists (map (fun x => (x, new_defaultdict)) (keys idx)).
    split; [reflexivity|]. split.
    + unfold keys, PyDict.keys. rewrite map_map. apply map_id.
    + intros numId Hin. exists new_defaultdict. split; [|reflexivity].
      apply getitem_Ok. unfold dict_get.
      induction (keys idx) as [|k ks IH]; [contradiction|]. simpl.
      destruct (String.eqb_spec numId k) as [_|Hne]; [reflexivity|].
      destruct Hin as [->|Hin]; [congruence | auto].
Qed.

Lemma counters_match_index_and_read_zero_witness :
  exists cnt,
    keys cnt = ["1"; "2"; "3"]
    /\ forall numId,
         In numId ["1"; "2"; "3"] ->
         exists d,
           getitem cnt numId = Ok d
           /\ forall lvl, fst (defaultdict_getitem d lvl) = 0%Z.
Proof.
  destruct (@counters_match_index_and_read_zero
              Demo.qn Demo.get_path_rels Demo.docx_lists
              (with_numbering
                 [with_dir [("Id", "rId1");
                            ("Type", (Demo.rel_types ++ "officeDocument")%string);
                            ("Target", "word/document.xml")] "_rels"]
                 [("1", ["decimal"; "lowerLetter"; "lowerRoman"]);
                  ("2", ["bullet"]);
                  ("3", ["decimal"; "lowerLetter"; "lowerRoman"])])
              [("1", ["decimal"; "lowerLetter"; "lowerRoman"]);
               ("2", ["bullet"]);
               ("3", ["decimal"; "lowerLetter"; "lowerRoman"])])
    as (cnt & _ & Hkeys & Hzero).
  - vm_compute; reflexivity.
  - reflexivity.
  - exists cnt. split; assumption.
Defined.

(** C3, as the code has it. The absence of the top-level relationship
    descriptor is not an error. [collect_rels] maps whichever members end
    in [.rels]; for an archive without [_rels/.rels] whose parts are
    well-formed (every descriptor present parses, [get_path_rels] raises
    nothing but [KeyError] on the flattened records, numbering resolution
    raises nothing but [KeyError]) it returns a mapping without that key,
    and [get_context] returns a context with its list of files. *)
Theorem missing_top_level_rels_is_not_an_error
        (qn : string -> string)
        (gpr : ExpandedAttribDict -> result string) (zipf : ZipFile) :
  ~ In top_level_rels (namelist zipf) ->
  Forall (fun n => is_ok (rels_entry zipf n) = true)
         (filter is_rels (namelist zipf)) ->
  (forall path2rels file e,
      collect_rels zipf = Ok path2rels ->
      In file (flatten_loop path2rels []) ->
      gpr file = Raise e -> e = KeyError) ->
  (forall xml e,
      read zipf numbering_part = Ok xml ->
      collect_numFmts qn xml = Raise e -> e = KeyError) ->
  exists path2rels ctx files,
    collect_rels zipf = Ok path2rels
    /\ dict_get path2rels top_level_rels = None
    /\ get_context qn gpr zipf = Ok ctx
    /\ getitem ctx "files" = Ok (CFiles files)
    /\ Forall2 record_of (entries_of path2rels) files.
Proof.
  intros Htop Hrels Hgpr Hnum.
  destruct (get_context_total qn gpr zipf Hrels Hgpr Hnum) as [ctx Hctx].
  apply collect_rels_total in Hrels. destruct Hrels as [path2rels Hrels].
  destruct (get_context_files _ _ _ Hctx Hrels) as (files & Hfiles & Hrec).
  exists path2rels, ctx, files. repeat split; try assumption.
  apply (pydict_get_None_not_In String.eqb String.eqb_eq).
  intros Hin. apply (collect_rels_keys _ _ Hrels) in Hin. tauto.
Qed.

Lemma missing_top_level_rels_is_not_an_error_witness :
  exists path2rels ctx files,
    collect_rels Demo.docx_one_image = Ok path2rels
    /\ dict_get path2rels top_level_rels = None
    /\ get_context Demo.qn Demo.get_path_rels Demo.docx_one_image = Ok ctx
    /\ getitem ctx "files" = Ok (CFiles files)
    /\ Forall2 record_of (entries_of path2rels) files.
Proof.
  apply (@missing_top_level_rels_is_not_an_error
           Demo.qn Demo.get_path_rels Demo.docx_one_image).
  - vm_compute. intros [H|[H|[H|[]]]]; discriminate.
  - vm_compute. repeat constructor.
  - intros path2rels file e H. vm_compute in H. injection H as <-.
    intros [<-|[]] He; vm_compute in He; congruence.
  - intros xml e H. vm_compute in H. discriminate.
Defined.

(** C3 as stated fails: the archive has no top-level relationship
    descriptor (it has no descriptor at all), and [get_context] returns a
    context, whatever the helpers. *)
Lemma missing_top_level_rels_counterexample :
  ~ In top_level_rels (namelist Demo.docx_no_top_rels)
  /\ collect_rels Demo.docx_no_top_rels = Ok []
  /\ forall qn gpr,
       get_context qn gpr Demo.docx_no_top_rels = Ok [("files", CFiles [])].
Proof.
  split; [|split].
  - vm_compute. intros [H|[]]; discriminate.
  - reflexivity.
  - intros qn gpr. reflexivity.
Qed.

(** The spec-modelled [get_path] on a record of [get_context]: the
    target of the entry, joined to the parent of the directory of the
    descriptor. *)
Lemma get_path_of_record kx file t :
  record_of kx file ->
  dict_get (snd kx) "Target" = Some t ->
  Demo.get_path file = Ok (path_join (dirname (dirname (fst kx))) t).
Proof.
  intros [Hdir Hattr] Ht.
  assert (Htarget : dict_get file "Target" = Some (VStr t)).
  { rewrite Hattr by discriminate. now rewrite Ht. }
  apply getitem_Ok in Hdir. apply getitem_Ok in Htarget.
  unfold Demo.get_path, Demo.str_of. rewrite Hdir. simpl.
  rewrite Htarget. reflexivity.
Qed.

(** C8, as the code has it. For every relationship entry of every
    descriptor part, in order, [get_context] emits one record. The record
    is tagged ([dir]) with the directory of the descriptor part itself,
    [os.path.dirname] of the descriptor's path: for the descriptor of a
    part [P] that is the [_rels] folder of the directory that contains
    [P], not that directory. The target path of the record resolves
    relative to the parent of the tag, which for the descriptor of [P] is
    the directory that contains [P], and not relative to the archive
    root. *)
Theorem records_tagged_with_descriptor_directory
        (qn : string -> string)
        (gpr : ExpandedAttribDict -> result string)
        (zipf : ZipFile) (ctx : Context) (path2rels : dict (list AttribDict)) :
  get_context qn gpr zipf = Ok ctx ->
  collect_rels zipf = Ok path2rels ->
  exists files,
    getitem ctx "files" = Ok (CFiles files)
    /\ Forall2
         (fun kx file =>
            record_of kx file
            /\ (forall t,
                   dict_get (snd kx) "Target" = Some t ->
                   Demo.get_path file
                   = Ok (path_join (dirname (dirname (fst kx))) t))
            /\ (forall P,
                   fst kx = descriptor_of P ->
                   dict_get file "dir"
                   = Some (VStr (path_join (dirname P) "_rels"))
                   /\ forall t,
                        dict_get (snd kx) "Target" = Some t ->
                        Demo.get_path file = Ok (path_join (dirname P) t)))
         (entries_of path2rels) files.
Proof.
  intros Hctx Hrels.
  destruct (get_context_files _ _ _ Hctx Hrels) as (files & Hfiles & Hrec).
  exists files. split; [assumption|].
  eapply Forall2_impl; [|exact Hrec].
  intros kx file Hrecord. split; [assumption|]. split.
  - intros t Ht. now apply get_path_of_record.
  - intros P Hk. split.
    + destruct Hrecord as [Hdir _]. rewrite Hdir, Hk.
      now rewrite dirname_descriptor_of.
    + intros t Ht. rewrite (get_path_of_record Hrecord Ht), Hk.
      now rewrite dirname_descriptor_of, dirname_rels_folder.
Qed.

Lemma records_tagged_with_descriptor_directory_witness :
  exists file,
    getitem [("files", CFiles [Demo.image_record "rId1" "media/image1.png"])]
            "files" = Ok (CFiles [file])
    /\ dict_get file "dir" = Some (VStr "word/_rels")
    /\ Demo.get_path file = Ok "word/media/image1.png".
Proof.
  destruct (@records_tagged_with_descriptor_directory
              Demo.qn Demo.get_path_rels Demo.docx_one_image
              [("files", CFiles [Demo.image_record "rId1" "media/image1.png"])]
              [("word/_rels/document.xml.rels",
                [[("Id", "rId1");
                  ("Type", (Demo.rel_types ++ "image")%string);
                  ("Target", "media/image1.png")]])])
    as (files & Hfiles & Hrec).
  - vm_compute; reflexivity.
  - vm_compute; reflexivity.
  - injection Hfiles as <-.
    exists (Demo.image_record "rId1" "media/image1.png").
    split; [reflexivity|].
    unfold entries_of in Hrec. simpl flat_map in Hrec.
    inversion Hrec as [|kx file es fs (_ & _ & Hdesc) _]; subst.
    destruct (Hdesc "word/document.xml" eq_refl) as [Hdir Hpath].
    split; [exact Hdir | exact (Hpath "media/image1.png" eq_refl)].
Defined.

(** C8 as stated fails: the image relationship belongs to
    [word/document.xml], whose directory is [word]; the record
    [get_context] emits for it is tagged [word/_rels], whatever the
    helpers. *)
Lemma record_directory_counterexample :
  get_context Demo.qn Demo.get_path_rels Demo.docx_one_image
  = Ok [("files", CFiles [Demo.image_record "rId1" "media/image1.png"])]
  /\ dirname "word/document.xml" = "word"
  /\ forall qn gpr ctx,
       get_context qn gpr Demo.docx_one_image = Ok ctx ->
       exists file,
         getitem ctx "files" = Ok (CFiles [file])
         /\ dict_get file "dir" = Some (VStr "word/_rels")
         /\ dict_get file "dir" <> Some (VStr "word").
Proof.
  split; [vm_compute; reflexivity|]. split; [reflexivity|].
  intros qn gpr ctx H.
  assert (Hrels : collect_rels Demo.docx_one_image
                  = Ok [("word/_rels/document.xml.rels",
                         [[("Id", "rId1");
                           ("Type", (Demo.rel_types ++ "image")%string);
                           ("Target", "media/image1.png")]])])
    by (vm_compute; reflexivity).
  destruct (get_context_files _ _ _ H Hrels) as (files & Hfiles & Hrec).
  unfold entries_of in Hrec. simpl flat_map in Hrec.
  inversion Hrec as [|kx file es fs [Hdir _] Hnil]; subst.
  inversion Hnil; subst.
  assert (Hd : dirname "word/_rels/document.xml.rels" = "word/_rels")
    by (vm_compute; reflexivity).
  simpl fst in Hdir. rewrite Hd in Hdir.
  exists file. split; [assumption|].
  split; [exact Hdir | rewrite Hdir; discriminate].
Qed.

(** ** Image extraction *)

Section Images.
Variable get_path : ExpandedAttribDict -> result string.
Variable zipf : ZipFile.

Lemma images_loop_eq xs : forall images,
  images_loop get_path zipf xs images
  = (kvs <- mapM (image_entry get_path zipf) xs ;; Ok (dict_update images kvs)).
Proof.
  induction xs as [|x rest IH]; intros images; simpl; [reflexivity|].
  unfold image_entry at 1, target_basename, image_bytes.
  destruct (getitem x "Target") as [[s|rels]|]; simpl; try reflexivity.
  destruct (get_path x) as [p|]; simpl; [|reflexivity].
  destruct (read zipf p) as [data|]; simpl; [|reflexivity].
  rewrite IH. destruct (mapM _ rest); reflexivity.
Qed.

Lemma image_entry_key x kv :
  image_entry get_path zipf x = Ok kv -> target_basename x = Ok (fst kv).
Proof.
  unfold image_entry. intros H.
  destruct (target_basename x); simpl in H; [|discriminate].
  destruct (image_bytes get_path zipf x); simpl in H; [|discriminate].
  now injection H as <-.
Qed.

Lemma image_entries_keys xs kvs key :
  mapM (image_entry get_path zipf) xs = Ok kvs ->
  In key (map fst kvs) <-> exists x, In x xs /\ target_basename x = Ok key.
Proof.
  intros H. apply mapM_Ok_Forall2 in H.
  induction H as [|x kv xs kvs Hx _ IH]; simpl.
  - split; [tauto | intros (x & [] & _)].
  - apply image_entry_key in Hx. rewrite IH. split.
    + intros [<-|(y & Hy & Hk)]; [exists x; auto | exists y; auto].
    + intros (y & [->|Hy] & Hk); [left; congruence | right; eauto].
Qed.

Lemma images_last xs kvs x key :
  mapM (image_entry get_path zipf) xs = Ok kvs ->
  last_with target_basename xs x key ->
  exists data,
    image_bytes get_path zipf x = Ok data
    /\ dict_get (dict_update [] kvs) key = Some data.
Proof.
  intros Hkvs Hlast.
  destruct (@mapM_entry_last _ _ _ _ _ _ _ _ image_entry_key Hkvs Hlast)
    as (data & pre & post & Hentry & -> & Hnin).
  exists data. split; [|now apply dict_get_update_last].
  unfold image_entry in Hentry.
  destruct (target_basename x); simpl in Hentry; [|discriminate].
  destruct (image_bytes get_path zipf x); simpl in Hentry; congruence.
Qed.
End Images.

(** C9. The mapping [pull_image_files] returns is keyed by the base
    filenames of the targets of the image records, and under each key it
    holds the bytes read for the last record with that base filename: of
    two image records whose targets share a base filename, the later
    one, after which no further record has that base filename, supplies
    the bytes, and the earlier one is overwritten. *)
Theorem images_keyed_by_basename_last_wins
        (get_path : ExpandedAttribDict -> result string)
        (filter_files_by_type :
           list ExpandedAttribDict -> string -> result (list ExpandedAttribDict))
        (zipf : ZipFile) (context : Context) (image_directory : option string)
        (images : dict Bytes) (ops : list fs_op)
        (files xs : list ExpandedAttribDict) :
  pull_image_files get_path filter_files_by_type zipf context image_directory
  = Ok (images, ops) ->
  getitem context "files" = Ok (CFiles files) ->
  filter_files_by_type files "image" = Ok xs ->
  (forall key,
      In key (keys images) <-> exists x, In x xs /\ target_basename x = Ok key)
  /\ (forall x key,
         last_with target_basename xs x key ->
         exists data,
           image_bytes get_path zipf x = Ok data
           /\ dict_get images key = Some data)
  /\ (forall pre x1 mid x2 post key,
         xs = pre ++ x1 :: mid ++ x2 :: post ->
         target_basename x1 = Ok key ->
         target_basename x2 = Ok key ->
         (forall y, In y post -> target_basename y <> Ok key) ->
         exists data,
           image_bytes get_path zipf x2 = Ok data
           /\ dict_get images key = Some data).
Proof.
  unfold pull_image_files. intros H Hfiles Hxs.
  rewrite Hfiles in H. simpl in H. rewrite Hxs in H. simpl in H.
  rewrite images_loop_eq in H.
  destruct (mapM (image_entry get_path zipf) xs) as [kvs|] eqn:Hkvs;
    simpl in H; [|discriminate].
  assert (images = dict_update [] kvs) as ->
      by (destruct image_directory; congruence).
  clear H. split; [|split].
  - intros key. rewrite keys_update, (@image_entries_keys _ _ _ _ key Hkvs).
    simpl. tauto.
  - intros x key Hlast. eapply images_last; eassumption.
  - intros pre x1 mid x2 post key -> _ Hk Hpost.
    apply (@images_last _ _ _ _ _ _ Hkvs).
    exists (pre ++ x1 :: mid), post. rewrite <- app_assoc. auto.
Qed.

Lemma images_keyed_by_basename_last_wins_witness :
  (forall key,
      In key (keys [("image1.png", RawBytes "png-of-the-header")]) <->
      exists x,
        In x [Demo.image_record "rId1" "media/image1.png";
              Demo.image_record "rId7" "media/sub/image1.png"]
        /\ target_basename x = Ok key)
  /\ dict_get [("image1.png", RawBytes "png-of-the-header")] "image1.png"
     = Some (RawBytes "png-of-the-header").
Proof.
  destruct (@images_keyed_by_basename_last_wins
              Demo.get_path Demo.filter_files_by_type Demo.docx_images
              Demo.context_same_basename None
              [("image1.png", RawBytes "png-of-the-header")] []
              [Demo.image_record "rId1" "media/image1.png";
               Demo.image_record "rId7" "media/sub/image1.png"]
              [Demo.image_record "rId1" "media/image1.png";
               Demo.image_record "rId7" "media/sub/image1.png"])
    as (Hkeys & _ & _).
  - vm_compute; reflexivity.
  - reflexivity.
  - vm_compute; reflexivity.
  - split; [exact Hkeys | reflexivity].
Defined.

(** ** The tag-name pattern *)

Lemma word_run_spec s :
  exists rest,
    s = (word_run s ++ rest)%string /\ string_forallb is_word (word_run s) = true.
Proof.
  induction s as [|c s (rest & Hs & Hw)]; simpl.
  - exists EmptyString. auto.
  - destruct (is_word c) eqn:E; simpl.
    + exists rest. rewrite E, Hw. split; [congruence | reflexivity].
    + exists (String c s). auto.
Qed.

Lemma match_close_Some s g :
  match_close s = Some g ->
  exists c local rest,
    g = String c local
    /\ s = ("}" ++ String c local ++ rest)%string
    /\ string_forallb is_word (String c local) = true.
Proof.
  destruct s as [|b s]; simpl; [discriminate|].
  destruct (Ascii.eqb_spec b "}"%char) as [->|]; [|discriminate].
  destruct (word_run_spec s) as (rest & Hs & Hw).
  destruct (word_run s) as [|c local]; [discriminate|].
  intros [= <-]. exists c, local, rest. repeat split; [|assumption].
  now rewrite Hs at 1.
Qed.

Lemma match_dots_Some s : forall g,
  match_dots s = Some g ->
  exists ns c local rest,
    g = String c local
    /\ s = (ns ++ "}" ++ String c local ++ rest)%string
    /\ string_forallb is_dot ns = true
    /\ string_forallb is_word (String c local) = true.
Proof.
  induction s as [|b s IH]; intros g H; [discriminate|].
  cbn [match_dots] in H.
  destruct (is_dot b) eqn:Eb.
  - destruct (match_dots s) as [g'|] eqn:Es.
    + injection H as <-.
      destruct (IH _ eq_refl) as (ns & c & local & rest & Hg & Hs & Hns & Hw).
      exists (String b ns), c, local, rest. repeat split; try assumption.
      * simpl. now rewrite Hs.
      * simpl. now rewrite Eb, Hns.
    + apply match_close_Some in H.
      destruct H as (c & local & rest & Hg & Hs & Hw).
      exists EmptyString, c, local, rest. auto.
  - apply match_close_Some in H.
    destruct H as (c & local & rest & Hg & Hs & Hw).
    exists EmptyString, c, local, rest. auto.
Qed.

Lemma match_dots_complete ns c local rest :
  string_forallb is_dot ns = true ->
  is_word c = true ->
  match_dots (ns ++ "}" ++ String c local ++ rest) <> None.
Proof.
  intros Hns Hc. induction ns as [|b ns IH].
  - change (EmptyString ++ "}" ++ String c local ++ rest)%string
      with (String "}" (String c (local ++ rest))).
    cbn [match_dots].
    match goal with
    | |- match ?x with Some _ => _ | None => _ end <> None =>
        destruct x; [discriminate|]
    end.
    unfold match_close. rewrite Ascii.eqb_refl. cbn [word_run]. rewrite Hc.
    discriminate.
  - simpl in Hns. apply andb_true_iff in Hns. destruct Hns as [Hb Hns].
    change (String b ns ++ "}" ++ String c local ++ rest)%string
      with (String b (ns ++ "}" ++ String c local ++ rest)).
    cbn [match_dots]. rewrite Hb.
    destruct (match_dots (ns ++ "}" ++ String c local ++ rest));
      [discriminate | now apply IH in Hns].
Qed.

(** The pattern matches exactly the qualified tags. *)
Lemma match_tag_name_qualified t :
  match_tag_name t <> None <-> qualified_tag t.
Proof.
  split.
  - intros H. destruct (match_tag_name t) as [g|] eqn:E; [clear H|congruence].
    destruct t as [|c0 [|c1 s]]; try discriminate. simpl in E.
    destruct (Ascii.eqb_spec c0 "{"%char) as [->|]; [|discriminate].
    destruct (is_dot c1) eqn:E1; [|discriminate]. simpl in E.
    apply match_dots_Some in E.
    destruct E as (ns & c & local & rest & _ & -> & Hns & Hw).
    exists (String c1 ns), c, local, rest. repeat split; try assumption.
    + discriminate.
    + simpl. now rewrite E1, Hns.
  - intros (ns & c & local & rest & -> & Hne & Hns & Hw).
    destruct ns as [|c1 ns]; [congruence|].
    simpl in Hns. apply andb_true_iff in Hns. destruct Hns as [H1 Hns].
    simpl in Hw. apply andb_true_iff in Hw. destruct Hw as [Hc _].
    change ("{" ++ String c1 ns ++ "}" ++ String c local ++ rest)%string
      with (String "{" (String c1 (ns ++ "}" ++ String c local ++ rest))).
    unfold match_tag_name. rewrite H1. simpl andb. cbv iota.
    now apply match_dots_complete.
Qed.

Lemma docProps_loop_spec dcs : forall d,
  match docProps_loop dcs d with
  | Ok _ => Forall (fun dc => qualified_tag (tag dc)) dcs
  | Raise e =>
      e = AttributeError
      /\ Exists (fun dc => ~ qualified_tag (tag dc)) dcs
  end.
Proof.
  induction dcs as [|dc rest IH]; intros d; simpl; [constructor|].
  destruct (match_tag_name (tag dc)) as [m|] eqn:E; simpl.
  - assert (Hq : qualified_tag (tag dc))
      by (apply match_tag_name_qualified; congruence).
    specialize (IH (setitem d m (text dc))).
    destruct (docProps_loop rest _) as [d'|e].
    + now constructor.
    + destruct IH as [-> Hex]. split; [reflexivity | now apply Exists_cons_tl].
  - split; [reflexivity|]. apply Exists_cons_hd.
    intros Hq. apply match_tag_name_qualified in Hq. congruence.
Qed.

(** C10, as the code has it. [collect_docProps] returns a mapping only
    when every direct child of the root has a qualified tag: a non-empty
    namespace without line feed in braces, followed by a local name that
    begins with a word character (the local name need not be made of
    word characters only). Otherwise some child has no such tag, and the
    function raises [AttributeError]: the pattern does not match, and the
    group is read from [None]. A child with the unqualified tag
    [revision] is such an input. *)
Theorem collect_docProps_requires_qualified_tags :
  (forall root,
      match collect_docProps (XmlBytes root) with
      | Ok _ => Forall (fun dc => qualified_tag (tag dc)) (children root)
      | Raise e =>
          e = AttributeError
          /\ Exists (fun dc => ~ qualified_tag (tag dc)) (children root)
      end)
  /\ collect_docProps (XmlBytes Demo.core_properties_unqualified)
     = Raise AttributeError
  /\ Exists (fun dc => tag dc = "revision" /\ ~ qualified_tag (tag dc))
            (children Demo.core_properties_unqualified).
Proof.
  split; [|split].
  - intros root. apply docProps_loop_spec.
  - reflexivity.
  - apply Exists_cons_tl, Exists_cons_hd. split; [reflexivity|].
    intros Hq. apply match_tag_name_qualified in Hq. now apply Hq.
Qed.

(** C10 as stated fails: the local name [my-property] is not made of
    word characters, the tag is not a namespace followed by a
    word-character local name, and [collect_docProps] returns a mapping,
    with the key [my]. *)
Lemma docProps_local_name_counterexample :
  ~ word_local_name_tag "{urn:x}my-property"
  /\ collect_docProps (XmlBytes Demo.custom_properties)
     = Ok [("my", Some "v")].
Proof.
  split; [|reflexivity].
  intros (ns & local & H & _ & _ & Hw).
  simpl in H. injection H as H.
  repeat (destruct ns as [|c ns]; simpl in H;
          [ first [ discriminate H
                  | injection H as <-; vm_compute in Hw; discriminate Hw ]
          | first [ discriminate H
                  | injection H as Hc H; subst c ] ]).
Qed.

(* ===================================================================== *)
(** * Further properties *)
(* ===================================================================== *)

(** ** More on [mapM] *)

Section MapMFailure.
Variables (A B : Type).
Variable f : A -> result B.

(** The error of a loop is the error of its first failing turn. *)
Lemma mapM_Raise_inv (l : list A) (e : exn) :
  mapM f l = Raise e ->
  exists pre a post,
    l = pre ++ a :: post /\ is_ok (mapM f pre) = true /\ f a = Raise e.
Proof.
  induction l as [|a l IH]; simpl; [discriminate|].
  destruct (f a) as [b|e'] eqn:Ea; simpl.
  - destruct (mapM f l) as [bs|e'] eqn:El; simpl; [discriminate|].
    intros [= ->]. destruct (IH eq_refl) as (pre & a' & post & -> & Hpre & Ha').
    exists (a :: pre), a', post. simpl. rewrite Ea. simpl.
    destruct (mapM f pre); [auto | discriminate].
  - intros [= ->]. exists [], a, l. auto.
Qed.

Lemma mapM_first_failure (pre : list A) (a : A) (post : list A) (e : exn) :
  is_ok (mapM f pre) = true -> f a = Raise e ->
  mapM f (pre ++ a :: post) = Raise e.
Proof.
  intros Hpre Ha. rewrite mapM_app. simpl.
  destruct (mapM f pre); [|discriminate]. simpl. now rewrite Ha.
Qed.

Lemma mapM_Ok_In_inv (l : list A) (bs : list B) (b : B) :
  mapM f l = Ok bs -> In b bs -> exists a, In a l /\ f a = Ok b.
Proof.
  intros H. apply mapM_Ok_Forall2 in H.
  induction H as [|a b' l bs Hab _ IH]; intros Hin; [contradiction|].
  destruct Hin as [->|Hin].
  - exists a. split; [now left | assumption].
  - destruct (IH Hin) as (a' & Ha' & Hf). exists a'. split; [now right | assumption].
Qed.
End MapMFailure.

(** The keys a loop assigns are the keys of its turns. *)
Lemma mapM_entry_keys {A V : Type} (key : A -> result string)
      (entry : A -> result (string * V)) (l : list A)
      (kvs : list (string * V)) (k : string) :
  (forall x kv, entry x = Ok kv -> key x = Ok (fst kv)) ->
  mapM entry l = Ok kvs ->
  In k (map fst kvs) <-> exists x, In x l /\ key x = Ok k.
Proof.
  intros Hkey H. apply mapM_Ok_Forall2 in H.
  induction H as [|x kv xs kvs' Hx _ IH]; simpl.
  - split; [tauto | intros (x & [] & _)].
  - apply Hkey in Hx. rewrite IH. split.
    + intros [<-|(y & Hy & Hk)]; [exists x; auto | exists y; auto].
    + intros (y & [->|Hy] & Hk); [left; congruence | right; eauto].
Qed.

(** ** Names that end in [.rels] *)

Lemma substring_app_skip (p s : string) (n : nat) :
  substring (String.length p) n (p ++ s) = substring 0 n s.
Proof. induction p as [|c p IH]; simpl; [reflexivity | assumption]. Qed.

Lemma substring_whole (s : string) (n : nat) :
  String.length s <= n -> substring 0 n s = s.
Proof.
  revert n. induction s as [|c s IH]; intros [|n] H; simpl in *;
    try reflexivity; try lia.
  rewrite IH by lia. reflexivity.
Qed.

Lemma substring_split (s : string) (n : nat) :
  n <= String.length s ->
  s = (substring 0 n s ++ substring n (String.length s - n) s)%string.
Proof.
  revert n. induction s as [|c s IH]; intros [|n] H; simpl in *;
    try reflexivity; try lia.
  - now rewrite substring_whole by lia.
  - rewrite <- IH by lia. reflexivity.
Qed.

Lemma length_append (a b : string) :
  String.length (a ++ b) = String.length a + String.length b.
Proof. induction a as [|c a IH]; simpl; [reflexivity | now rewrite IH]. Qed.

Lemma length_substring_le (s : string) : forall n m,
  String.length (substring n m s) <= m.
Proof.
  induction s as [|c s IH]; intros [|n] [|m]; simpl; try lia.
  - specialize (IH 0 m). lia.
  - apply IH.
  - apply IH.
Qed.

(** [x[-5:] == ".rels"] holds exactly for the names that end in [.rels]. *)
Lemma is_rels_ends_with x : is_rels x = true <-> ends_with_rels x.
Proof.
  unfold is_rels, last_chars, ends_with_rels. rewrite String.eqb_eq. split.
  - intros H.
    destruct (le_lt_dec 5 (String.length x)) as [Hle|Hlt].
    + exists (substring 0 (String.length x - 5) x).
      assert (Hs := @substring_split x (String.length x - 5)).
      replace (String.length x - (String.length x - 5)) with 5 in Hs by lia.
      rewrite H in Hs. apply Hs. lia.
    + replace (String.length x - 5) with 0 in H by lia.
      rewrite substring_whole in H by lia. subst x. simpl in Hlt. lia.
  - intros [p ->]. rewrite length_append. simpl String.length.
    replace (String.length p + 5 - 5) with (String.length p) by lia.
    now rewrite substring_app_skip.
Qed.

(** ** Relationship collection *)

Lemma read_In zipf name :
  In name (namelist zipf) -> exists b, read zipf name = Ok b.
Proof.
  unfold read, namelist. intros Hin.
  destruct (NameToInfo (filelist zipf) name) as [b|] eqn:E; [eauto|].
  apply NameToInfo_None in E. contradiction.
Qed.

Lemma collect_rels_eq zipf :
  collect_rels zipf
  = (kvs <- mapM (rels_entry zipf) (filter is_rels (namelist zipf)) ;;
     Ok (dict_update [] kvs)).
Proof. unfold collect_rels. apply rels_loop_eq. Qed.

(** X1. The keys of the mapping [collect_rels] returns are the names of
    the archive that end in [.rels], each once, whatever directory they
    lie in, and nothing else. *)
Theorem collect_rels_keys_end_with_rels
        (zipf : ZipFile) (path2rels : dict (list AttribDict)) :
  collect_rels zipf = Ok path2rels ->
  NoDup (keys path2rels)
  /\ forall k,
       In k (keys path2rels) <-> In k (namelist zipf) /\ ends_with_rels k.
Proof.
  intros H. split.
  - rewrite collect_rels_eq in H.
    apply bind_Ok_inv in H. destruct H as (kvs & _ & H). injection H as <-.
    apply NoDup_keys_update. constructor.
  - intros k. rewrite (collect_rels_keys _ _ H), is_rels_ends_with. tauto.
Qed.

Lemma collect_rels_keys_end_with_rels_witness :
  exists path2rels,
    collect_rels Demo.docx_images = Ok path2rels
    /\ NoDup (keys path2rels)
    /\ forall k,
         In k (keys path2rels) <->
         In k (namelist Demo.docx_images) /\ ends_with_rels k.
Proof.
  eexists. split; [vm_compute; reflexivity|].
  apply (@collect_rels_keys_end_with_rels Demo.docx_images).
  vm_compute; reflexivity.
Defined.

(** X2. Under the name of a descriptor, the mapping holds the attribute
    dictionaries of the children of the document read under that name,
    in document order, whatever their tags; when the archive stores
    several members under the name, that is the last of them. *)
Theorem collect_rels_values
        (zipf : ZipFile) (path2rels : dict (list AttribDict))
        (k : string) (rels : list AttribDict) :
  collect_rels zipf = Ok path2rels ->
  dict_get path2rels k = Some rels ->
  exists root,
    read zipf k = Ok (XmlBytes root) /\ rels = map attrib (children root).
Proof.
  rewrite collect_rels_eq. intros H Hget.
  apply bind_Ok_inv in H. destruct H as (kvs & Hkvs & H). injection H as <-.
  apply dict_get_update_inv in Hget.
  destruct Hget as [(pre & post & -> & _) | [Hnil _]]; [|discriminate].
  destruct (@mapM_Ok_In_inv _ _ _ _ _ (k, rels) Hkvs) as (n & _ & Hn).
  { apply in_or_app. right. now left. }
  unfold rels_entry in Hn.
  destruct (read zipf n) as [[root|payload]|] eqn:Hread; simpl in Hn;
    try discriminate.
  injection Hn as -> <-. eauto.
Qed.

Lemma collect_rels_values_witness :
  exists root,
    read Demo.docx_images "word/_rels/header1.xml.rels" = Ok (XmlBytes root)
    /\ [[("Id", "rId1");
         ("Type", (Demo.rel_types ++ "image")%string);
         ("Target", "media/sub/image1.png")]]
       = map attrib (children root).
Proof.
  eapply (@collect_rels_values Demo.docx_images).
  - vm_compute; reflexivity.
  - vm_compute; reflexivity.
Defined.



(** ** Document properties *)

Lemma is_word_not_brace c : is_word c = true -> Ascii.eqb c "}"%char = false.
Proof.
  intros H. destruct (Ascii.eqb_spec c "}"%char) as [->|]; [|reflexivity].
  vm_compute in H. discriminate.
Qed.

Lemma match_dots_no_brace s : no_brace s -> match_dots s = None.
Proof.
  unfold no_brace. induction s as [|c s IH]; [reflexivity|].
  simpl string_forallb. intros H. apply andb_true_iff in H. destruct H as [Hc Hs].
  cbn [match_dots]. rewrite (IH Hs).
  apply negb_true_iff in Hc. unfold match_close. rewrite Hc.
  destruct (is_dot c); reflexivity.
Qed.

Lemma no_brace_app a b : no_brace a -> no_brace b -> no_brace (a ++ b).
Proof.
  unfold no_brace. intros Ha Hb. induction a as [|c a IH]; [assumption|].
  simpl in *. apply andb_true_iff in Ha. destruct Ha as [Hc Ha].
  now rewrite Hc, IH.
Qed.

Lemma word_no_brace w : string_forallb is_word w = true -> no_brace w.
Proof.
  unfold no_brace. induction w as [|c w IH]; [reflexivity|].
  simpl. intros H. apply andb_true_iff in H. destruct H as [Hc Hw].
  now rewrite (is_word_not_brace _ Hc), IH.
Qed.

Lemma word_run_app local rest :
  string_forallb is_word local = true -> not_word_first rest ->
  word_run (local ++ rest) = local.
Proof.
  intros Hl Hr. induction local as [|c local IH]; simpl.
  - destruct rest as [|c rest]; [reflexivity|]. simpl in *. now rewrite Hr.
  - simpl in Hl. apply andb_true_iff in Hl. destruct Hl as [Hc Hl].
    now rewrite Hc, IH.
Qed.

Lemma match_dots_last_brace ns local rest :
  string_forallb is_dot ns = true ->
  local <> EmptyString -> string_forallb is_word local = true ->
  not_word_first rest -> no_brace rest ->
  match_dots (ns ++ "}" ++ local ++ rest) = Some local.
Proof.
  intros Hns Hne Hl Hr Hb. induction ns as [|b ns IH].
  - change (EmptyString ++ "}" ++ local ++ rest)%string
      with (String "}" (local ++ rest)).
    cbn [match_dots].
    rewrite match_dots_no_brace
      by (apply no_brace_app; [now apply word_no_brace | assumption]).
    unfold match_close. rewrite Ascii.eqb_refl, word_run_app by assumption.
    destruct local; [congruence|]. destruct (is_dot "}"); reflexivity.
  - simpl in Hns. apply andb_true_iff in Hns. destruct Hns as [Hb' Hns].
    change (String b ns ++ "}" ++ local ++ rest)%string
      with (String b (ns ++ "}" ++ local ++ rest)).
    cbn [match_dots]. now rewrite Hb', IH.
Qed.

(** X4. For a tag made of a non-empty namespace without line feed in
    braces, a local name of word characters, and a remainder that begins
    with no word character and holds no closing brace, the key
    [collect_docProps] uses is the local name alone: the namespace is
    dropped, and so is the remainder (a local name is cut at its first
    character that is not a word character). *)
Theorem tag_name_is_leading_word_run (ns local rest : string) :
  ns <> EmptyString -> string_forallb is_dot ns = true ->
  local <> EmptyString -> string_forallb is_word local = true ->
  not_word_first rest -> no_brace rest ->
  match_tag_name ("{" ++ ns ++ "}" ++ local ++ rest) = Some local.
Proof.
  intros Hne Hns Hl Hw Hr Hb.
  destruct ns as [|c1 ns]; [congruence|].
  simpl in Hns. apply andb_true_iff in Hns. destruct Hns as [H1 Hns].
  change ("{" ++ String c1 ns ++ "}" ++ local ++ rest)%string
    with (String "{" (String c1 (ns ++ "}" ++ local ++ rest))).
  unfold match_tag_name. rewrite H1. simpl andb. cbv iota.
  now apply match_dots_last_brace.
Qed.

Lemma tag_name_is_leading_word_run_witness :
  match_tag_name
    ("{" ++ "http://schemas.openxmlformats.org/officeDocument/2006/custom-properties"
         ++ "}" ++ "my" ++ "-property")
  = Some "my".
Proof.
  apply tag_name_is_leading_word_run;
    first [discriminate | reflexivity | exact I].
Defined.

Lemma docProps_loop_eq dcs : forall d,
  docProps_loop dcs d
  = (kvs <- mapM docProps_entry dcs ;; Ok (dict_update d kvs)).
Proof.
  induction dcs as [|dc rest IH]; intros d; simpl; [reflexivity|].
  unfold docProps_entry at 1, docProp_name.
  destruct (not_None (match_tag_name (tag dc))) as [m|]; simpl; [|reflexivity].
  rewrite IH. destruct (mapM docProps_entry rest); reflexivity.
Qed.

Lemma docProps_entry_key dc kv :
  docProps_entry dc = Ok kv -> docProp_name dc = Ok (fst kv).
Proof.
  unfold docProps_entry. intros H.
  destruct (docProp_name dc); simpl in H; [|discriminate].
  now injection H as <-.
Qed.

(** X5. The mapping [collect_docProps] returns has one key per distinct
    captured name among the children of the root; under each key it holds
    the text of the last child with that name, as the parser gives it
    (no text stays [None]). Children whose names coincide once the
    namespace is dropped share one entry. *)
Theorem collect_docProps_maps_names_to_text
        (root : Element) (d : dict (option string)) :
  collect_docProps (XmlBytes root) = Ok d ->
  NoDup (keys d)
  /\ (forall key,
         In key (keys d) <->
         exists dc, In dc (children root) /\ docProp_name dc = Ok key)
  /\ (forall dc key,
         last_with docProp_name (children root) dc key ->
         dict_get d key = Some (text dc)).
Proof.
  unfold collect_docProps. simpl. rewrite docProps_loop_eq. intros H.
  apply bind_Ok_inv in H. destruct H as (kvs & Hkvs & H). injection H as <-.
  split; [|split].
  - apply NoDup_keys_update. constructor.
  - intros key. rewrite keys_update.
    rewrite (@mapM_entry_keys _ _ _ _ _ _ key docProps_entry_key Hkvs).
    simpl. tauto.
  - intros dc key Hlast.
    destruct (@mapM_entry_last _ _ _ _ _ _ _ _ docProps_entry_key Hkvs Hlast)
      as (v & pre & post & Hentry & -> & Hnin).
    unfold docProps_entry in Hentry.
    destruct (docProp_name dc); simpl in Hentry; [|discriminate].
    injection Hentry as _ <-. now apply dict_get_update_last.
Qed.

Lemma collect_docProps_maps_names_to_text_witness :
  NoDup ["creator"; "revision"]
  /\ dict_get [("creator", Some "Shay Hill"); ("revision", Some "6")] "revision"
     = Some (Some "6").
Proof.
  destruct (@collect_docProps_maps_names_to_text
              Demo.core_properties
              [("creator", Some "Shay Hill"); ("revision", Some "6")])
    as (Hnodup & _ & Hlast).
  - reflexivity.
  - split; [exact Hnodup|].
    apply (Hlast
             (mkElement
                "{http://schemas.openxmlformats.org/package/2006/metadata/core-properties}revision"
                [] (Some "6") []) "revision").
    exists [mkElement "{http://purl.org/dc/elements/1.1/}creator" []
                      (Some "Shay Hill") []], [].
    split; [reflexivity|]. split; [reflexivity|]. intros b [].
Defined.

(** ** More on numbering resolution *)

Section NumberingMore.
Variable qn : string -> string.

Lemma abstract_table_eq root :
  abstractNumId2numFmts_of qn root
  = (kvs <- mapM (abstractNum_entry qn) (findall root (qn "w:abstractNum")) ;;
     Ok (dict_update [] kvs)).
Proof. unfold abstractNumId2numFmts_of. apply abstractNum_loop_eq. Qed.

(** Every entry of the table is the format list of a definition. *)
Lemma abstract_table_values root tbl id_ fmts :
  abstractNumId2numFmts_of qn root = Ok tbl ->
  dict_get tbl id_ = Some fmts ->
  exists a,
    In a (findall root (qn "w:abstractNum")) /\ numFmts_of qn a = Ok fmts.
Proof.
  rewrite abstract_table_eq. intros H Hget.
  apply bind_Ok_inv in H. destruct H as (kvs & Hkvs & H). injection H as <-.
  apply dict_get_update_inv in Hget.
  destruct Hget as [(pre & post & -> & _) | [Hnil _]]; [|discriminate].
  destruct (@mapM_Ok_In_inv _ _ _ _ _ (id_, fmts) Hkvs) as (a & Ha & Hentry).
  { apply in_or_app. right. now left. }
  exists a. split; [assumption|].
  unfold abstractNum_entry in Hentry.
  destruct (abstractNumId_of qn a); simpl in Hentry; [|discriminate].
  destruct (numFmts_of qn a); simpl in Hentry; congruence.
Qed.
End NumberingMore.

(** X6. The keys of the index [collect_numFmts] returns are the
    identifiers of the [w:num] elements, each once; and every format list
    in the index is the list of format names, in document order, of one
    of the definitions of the document: no list is made up. *)
Theorem index_keys_and_values
        (qn : string -> string) (root : Element) (idx : dict (list string)) :
  collect_numFmts qn (XmlBytes root) = Ok idx ->
  NoDup (keys idx)
  /\ (forall k,
         In k (keys idx) <->
         exists num, In num (findall root (qn "w:num")) /\ numId_of qn num = Ok k)
  /\ (forall k fmts,
         dict_get idx k = Some fmts ->
         exists a,
           In a (findall root (qn "w:abstractNum"))
           /\ numFmts_of qn a = Ok fmts).
Proof.
  rewrite collect_numFmts_eq. intros H.
  apply bind_Ok_inv in H. destruct H as (tbl & Htbl & H).
  apply bind_Ok_inv in H. destruct H as (kvs & Hkvs & H). injection H as <-.
  split; [|split].
  - apply NoDup_keys_update. constructor.
  - intros k. rewrite keys_update.
    rewrite (@mapM_entry_keys _ _ _ _ _ _ k (@num_entry_key qn tbl) Hkvs).
    simpl. tauto.
  - intros k fmts Hget. apply dict_get_update_inv in Hget.
    destruct Hget as [(pre & post & -> & _) | [Hnil _]]; [|discriminate].
    destruct (@mapM_Ok_In_inv _ _ _ _ _ (k, fmts) Hkvs) as (num & _ & Hentry).
    { apply in_or_app. right. now left. }
    unfold num_entry in Hentry.
    destruct (numId_of qn num); simpl in Hentry; [|discriminate].
    destruct (num_abstractNumId qn num) as [ref|]; simpl in Hentry; [|discriminate].
    destruct (getitem tbl ref) as [fmts'|] eqn:Hg; simpl in Hentry; [|discriminate].
    injection Hentry as _ ->. apply getitem_Ok in Hg.
    eapply abstract_table_values; eassumption.
Qed.

Lemma index_keys_and_values_witness :
  exists idx,
    collect_numFmts Demo.qn (XmlBytes Demo.numbering_ok) = Ok idx
    /\ NoDup (keys idx)
    /\ (forall k,
           In k (keys idx) <->
           exists num,
             In num (findall Demo.numbering_ok (Demo.qn "w:num"))
             /\ numId_of Demo.qn num = Ok k)
    /\ (forall k fmts,
           dict_get idx k = Some fmts ->
           exists a,
             In a (findall Demo.numbering_ok (Demo.qn "w:abstractNum"))
             /\ numFmts_of Demo.qn a = Ok fmts).
Proof.
  eexists. split; [vm_compute; reflexivity|].
  apply (@index_keys_and_values Demo.qn Demo.numbering_ok).
  vm_compute; reflexivity.
Defined.

(** X7. When several definitions carry one identifier, a list that
    refers to it receives the format names of the last of them, in
    document order; the earlier definitions contribute nothing to the
    list. *)
Theorem last_definition_with_an_id_wins
        (qn : string -> string) (root : Element) (idx : dict (list string))
        (num : Element) (numId id_ : string) (a : Element) :
  collect_numFmts qn (XmlBytes root) = Ok idx ->
  last_with (numId_of qn) (findall root (qn "w:num")) num numId ->
  num_abstractNumId qn num = Ok id_ ->
  last_with (abstractNumId_of qn) (findall root (qn "w:abstractNum")) a id_ ->
  exists fmts, numFmts_of qn a = Ok fmts /\ dict_get idx numId = Some fmts.
Proof.
  intros Hidx Hnum Href Ha.
  destruct (index_last _ Hidx Hnum) as (tbl & ref & fmts & Ht & Hr & Hf & Hi).
  assert (ref = id_) by congruence. subst ref.
  destruct (abstract_table_last _ Ht Ha) as (fmts' & Hfm & Hget).
  exists fmts. split; congruence.
Qed.

Lemma last_definition_with_an_id_wins_witness :
  exists fmts,
    numFmts_of Demo.qn (Demo.abstractNum "0" [Demo.lvl "0" "bullet"]) = Ok fmts
    /\ dict_get [("1", ["bullet"])] "1" = Some fmts.
Proof.
  apply (@last_definition_with_an_id_wins
           Demo.qn Demo.numbering_redefined [("1", ["bullet"])]
           (Demo.num "1" "0") "1" "0").
  - vm_compute; reflexivity.
  - exists [], []. split; [vm_compute; reflexivity|].
    split; [vm_compute; reflexivity|]. intros b [].
  - vm_compute; reflexivity.
  - exists [Demo.abstractNum "0" [Demo.lvl "0" "decimal"; Demo.lvl "1" "lowerLetter"]],
           [].
    split; [vm_compute; reflexivity|].
    split; [vm_compute; reflexivity|]. intros b [].
Defined.

(** X8. Lists that refer to the same definition receive the same format
    list. *)
Theorem lists_sharing_a_definition_get_equal_formats
        (qn : string -> string) (root : Element) (idx : dict (list string))
        (num1 num2 : Element) (numId1 numId2 ref : string) :
  collect_numFmts qn (XmlBytes root) = Ok idx ->
  last_with (numId_of qn) (findall root (qn "w:num")) num1 numId1 ->
  last_with (numId_of qn) (findall root (qn "w:num")) num2 numId2 ->
  num_abstractNumId qn num1 = Ok ref ->
  num_abstractNumId qn num2 = Ok ref ->
  exists fmts,
    dict_get idx numId1 = Some fmts /\ dict_get idx numId2 = Some fmts.
Proof.
  intros Hidx H1 H2 Hr1 Hr2.
  destruct (index_last _ Hidx H1) as (tbl & r1 & fmts & Ht & Hr & Hf & Hi).
  destruct (index_last _ Hidx H2) as (tbl' & r2 & fmts' & Ht' & Hr' & Hf' & Hi').
  assert (tbl' = tbl) by congruence. assert (r1 = ref) by congruence.
  assert (r2 = ref) by congruence. subst.
  exists fmts. split; congruence.
Qed.

Lemma lists_sharing_a_definition_get_equal_formats_witness :
  exists fmts,
    dict_get [("1", ["decimal"; "lowerLetter"; "lowerRoman"]);
              ("2", ["bullet"]);
              ("3", ["decimal"; "lowerLetter"; "lowerRoman"])] "1" = Some fmts
    /\ dict_get [("1", ["decimal"; "lowerLetter"; "lowerRoman"]);
                 ("2", ["bullet"]);
                 ("3", ["decimal"; "lowerLetter"; "lowerRoman"])] "3" = Some fmts.
Proof.
  apply (@lists_sharing_a_definition_get_equal_formats
           Demo.qn Demo.numbering_ok _
           (Demo.num "1" "0") (Demo.num "3" "0") "1" "3" "0").
  - vm_compute; reflexivity.
  - exists [], [Demo.num "2" "5"; Demo.num "3" "0"].
    split; [vm_compute; reflexivity|].
    split; [vm_compute; reflexivity|].
    intros b [<-|[<-|[]]]; vm_compute; discriminate.
  - exists [Demo.num "1" "0"; Demo.num "2" "5"], [].
    split; [vm_compute; reflexivity|].
    split; [vm_compute; reflexivity|]. intros b [].
  - vm_compute; reflexivity.
  - vm_compute; reflexivity.
Defined.

(** ** More on context assembly *)

Lemma collect_rels_Raise zipf e : collect_rels zipf = Raise e -> e = ParseError.
Proof.
  rewrite collect_rels_eq. intros H.
  destruct (mapM (rels_entry zipf) _) as [kvs|e'] eqn:Hm; [discriminate|].
  simpl in H. injection H as ->.
  apply mapM_Raise_inv in Hm. destruct Hm as (pre & n & post & Hnames & _ & Hn).
  assert (Hin : In n (filter is_rels (namelist zipf))).
  { rewrite Hnames. apply in_or_app. right. now left. }
  apply filter_In in Hin. destruct Hin as [Hin _].
  destruct (read_In _ _ Hin) as [b Hb].
  unfold rels_entry in Hn. rewrite Hb in Hn. simpl in Hn.
  destruct b; simpl in Hn; congruence.
Qed.

Lemma attach_rels_Raise gpr path2rels file e :
  attach_rels gpr path2rels file = Raise e ->
  gpr file = Raise e /\ e <> KeyError.
Proof.
  unfold attach_rels. intros H.
  destruct (gpr file) as [p|e'] eqn:Hp; simpl in H.
  - destruct (getitem path2rels p) as [rels|e'] eqn:E; simpl in H; [discriminate|].
    apply getitem_Raise in E. subst e'. discriminate.
  - destruct e'; simpl in H; try discriminate; injection H as <-;
      (split; [reflexivity | discriminate]).
Qed.

(** X9. [get_context] never raises [KeyError], whatever the archive holds
    and whatever [get_path_rels] does: a [KeyError] of [get_path_rels] or
    of the lookup of its descriptor is suppressed record by record, and a
    [KeyError] of the numbering part is caught. *)
Theorem get_context_never_raises_KeyError
        (qn : string -> string)
        (gpr : ExpandedAttribDict -> result string) (zipf : ZipFile) :
  get_context qn gpr zipf <> Raise KeyError.
Proof.
  unfold get_context. intros H.
  destruct (collect_rels zipf) as [path2rels|e] eqn:Hrels; simpl in H.
  - destruct (mapM (attach_rels gpr path2rels) _) as [files|e] eqn:Hfiles;
      simpl in H.
    + match type of H with
      | except_KeyError ?m _ = _ => destruct m as [c|[]]; discriminate
      end.
    + injection H as ->. apply mapM_Raise_inv in Hfiles.
      destruct Hfiles as (pre & f & post & _ & _ & Hf).
      apply attach_rels_Raise in Hf. now destruct Hf.
  - injection H as ->. apply collect_rels_Raise in Hrels. discriminate.
Qed.

Section LevelWithoutFormat.
Variable qn : string -> string.

Lemma numFmts_of_level_without_format a lpre lvl lpost :
  lvls_of qn a = lpre ++ lvl :: lpost ->
  is_ok (mapM (lvl_numFmt qn) lpre) = true ->
  find lvl (qn "w:numFmt") = None ->
  numFmts_of qn a = Raise AttributeError.
Proof.
  unfold lvls_of, numFmts_of. intros -> Hpre Hfind.
  apply mapM_first_failure; [assumption|].
  unfold lvl_numFmt. now rewrite Hfind.
Qed.
End LevelWithoutFormat.

(** X10. A level definition without [w:numFmt] child, met before
    anything else fails, makes [collect_numFmts] raise [AttributeError],
    and [get_context] does not catch it: context assembly is aborted,
    where a dangling reference would have been passed over. *)
Theorem level_without_format_aborts_assembly
        (qn : string -> string) (root : Element)
        (pre : list Element) (a : Element) (post : list Element) (id_ : string)
        (lpre : list Element) (lvl : Element) (lpost : list Element) :
  findall root (qn "w:abstractNum") = pre ++ a :: post ->
  is_ok (mapM (abstractNum_entry qn) pre) = true ->
  abstractNumId_of qn a = Ok id_ ->
  lvls_of qn a = lpre ++ lvl :: lpost ->
  is_ok (mapM (lvl_numFmt qn) lpre) = true ->
  find lvl (qn "w:numFmt") = None ->
  collect_numFmts qn (XmlBytes root) = Raise AttributeError
  /\ forall gpr zipf,
       read zipf numbering_part = Ok (XmlBytes root) ->
       is_ok (path2rels <- collect_rels zipf ;;
              mapM (attach_rels gpr path2rels) (flatten_loop path2rels []))
       = true ->
       get_context qn gpr zipf = Raise AttributeError.
Proof.
  intros Habs Hpre Hid Hlvls Hlpre Hfind.
  assert (Hnum : collect_numFmts qn (XmlBytes root) = Raise AttributeError).
  { assert (Ha : abstractNum_entry qn a = Raise AttributeError).
    { unfold abstractNum_entry. rewrite Hid. simpl.
      now rewrite (@numFmts_of_level_without_format qn a lpre lvl lpost Hlvls Hlpre Hfind). }
    rewrite collect_numFmts_eq, abstract_table_eq, Habs.
    now rewrite (@mapM_first_failure _ _ _ pre a post _ Hpre Ha). }
  split; [assumption|].
  intros gpr zipf Hread Hrels. unfold get_context.
  destruct (collect_rels zipf) as [path2rels|]; simpl in *; [|discriminate].
  unfold PyDict.items.
  destruct (mapM (attach_rels gpr path2rels) _) as [files|]; simpl in *;
    [|discriminate].
  rewrite Hread. simpl. rewrite Hnum. reflexivity.
Qed.

Lemma level_without_format_aborts_assembly_witness :
  collect_numFmts Demo.qn (XmlBytes Demo.numbering_no_format)
  = Raise AttributeError
  /\ get_context Demo.qn Demo.get_path_rels Demo.docx_no_format
     = Raise AttributeError.
Proof.
  destruct (@level_without_format_aborts_assembly
              Demo.qn Demo.numbering_no_format
              [] (Demo.abstractNum "0" [Demo.lvl "0" "decimal"; Demo.lvl_no_format])
              [] "0" [Demo.lvl "0" "decimal"] Demo.lvl_no_format [])
    as [Hnum Hctx].
  - vm_compute; reflexivity.
  - reflexivity.
  - vm_compute; reflexivity.
  - vm_compute; reflexivity.
  - vm_compute; reflexivity.
  - vm_compute; reflexivity.
  - split; [exact Hnum|]. apply Hctx; vm_compute; reflexivity.
Defined.

(** X11. In the context [get_context] returns, the numbering index is
    present exactly when the archive has a numbering part that
    [collect_numFmts] resolves, and it is then what [collect_numFmts]
    returns for that part. The keys of the context are [files] alone, or
    [files], [numId2numFmts] and [numId2count]. *)
Theorem numbering_index_is_collect_numFmts
        (qn : string -> string)
        (gpr : ExpandedAttribDict -> result string)
        (zipf : ZipFile) (ctx : Context) :
  get_context qn gpr zipf = Ok ctx ->
  (keys ctx = ["files"]
   \/ keys ctx = ["files"; "numId2numFmts"; "numId2count"])
  /\ forall idx,
       getitem ctx "numId2numFmts" = Ok (CNumFmts idx) <->
       exists xml,
         read zipf numbering_part = Ok xml /\ collect_numFmts qn xml = Ok idx.
Proof.
  intros H. apply get_context_Ok_inv in H.
  destruct H as (path2rels & files & _ & _
                 & [[-> Hnum] | (xml & idx' & Hread & Hidx & ->)]).
  - split; [now left|]. intros idx. split; [discriminate|].
    intros (xml & Hread & Hidx). rewrite Hread in Hnum. simpl in Hnum. congruence.
  - split; [now right|]. intros idx. split.
    + intros [= <-]. eauto.
    + intros (xml' & Hread' & Hidx').
      assert (xml' = xml) by congruence. subst xml'.
      assert (idx' = idx) by congruence. now subst idx'.
Qed.

Lemma numbering_index_is_collect_numFmts_witness :
  exists ctx,
    get_context Demo.qn Demo.get_path_rels Demo.docx_lists = Ok ctx
    /\ (keys ctx = ["files"]
        \/ keys ctx = ["files"; "numId2numFmts"; "numId2count"])
    /\ forall idx,
         getitem ctx "numId2numFmts" = Ok (CNumFmts idx) <->
         exists xml,
           read Demo.docx_lists numbering_part = Ok xml
           /\ collect_numFmts Demo.qn xml = Ok idx.
Proof.
  eexists. split; [vm_compute; reflexivity|].
  apply (@numbering_index_is_collect_numFmts
           Demo.qn Demo.get_path_rels Demo.docx_lists).
  vm_compute; reflexivity.
Defined.

Lemma NameToInfo_other l1 n b l2 name :
  name <> n ->
  NameToInfo (l1 ++ (n, b) :: l2) name = NameToInfo (l1 ++ l2) name.
Proof.
  intros Hne. induction l1 as [|[n0 b0] l1 IH]; simpl.
  - destruct (NameToInfo l2 name); [reflexivity|].
    destruct (String.eqb_spec name n); [contradiction | reflexivity].
  - now rewrite IH.
Qed.

Lemma rels_loop_ext zipf1 zipf2 names :
  (forall x, In x names -> read zipf1 x = read zipf2 x) ->
  forall d, rels_loop zipf1 names d = rels_loop zipf2 names d.
Proof.
  induction names as [|n rest IH]; intros Hread d; simpl; [reflexivity|].
  rewrite (Hread n) by now left.
  destruct (read zipf2 n) as [xml|]; simpl; [|reflexivity].
  destruct (fromstring xml); simpl; [|reflexivity].
  apply IH. intros x Hx. apply Hread. now right.
Qed.

(** X12. [get_context] looks at no member other than those whose name
    ends in [.rels] and the numbering part: storing a further member
    under any other name, anywhere in the archive, leaves its result, or
    its error, as it is. *)
Theorem get_context_ignores_other_members
        (qn : string -> string)
        (gpr : ExpandedAttribDict -> result string)
        (l1 : list (string * Bytes)) (n : string) (b : Bytes)
        (l2 : list (string * Bytes)) :
  ~ ends_with_rels n -> n <> numbering_part ->
  get_context qn gpr (mkZipFile (l1 ++ (n, b) :: l2))
  = get_context qn gpr (mkZipFile (l1 ++ l2)).
Proof.
  intros Hrels Hnum.
  assert (Hn : is_rels n = false).
  { destruct (is_rels n) eqn:E; [|reflexivity].
    apply is_rels_ends_with in E. contradiction. }
  assert (Hread : forall x, x <> n ->
            read (mkZipFile (l1 ++ (n, b) :: l2)) x
            = read (mkZipFile (l1 ++ l2)) x).
  { intros x Hx. unfold read. simpl. now rewrite NameToInfo_other. }
  assert (Hc : collect_rels (mkZipFile (l1 ++ (n, b) :: l2))
               = collect_rels (mkZipFile (l1 ++ l2))).
  { unfold collect_rels, namelist. simpl.
    rewrite !map_app, !filter_app. simpl. rewrite Hn.
    rewrite <- filter_app, <- map_app.
    apply rels_loop_ext. intros x Hx. apply Hread.
    apply filter_In in Hx. destruct Hx as [_ Hx]. congruence. }
  unfold get_context. rewrite Hc, Hread by (intros E; now symmetry in E).
  reflexivity.
Qed.

Lemma get_context_ignores_other_members_witness :
  get_context Demo.qn Demo.get_path_rels Demo.docx_lists_and_more
  = get_context Demo.qn Demo.get_path_rels Demo.docx_lists.
Proof.
  apply (@get_context_ignores_other_members
           Demo.qn Demo.get_path_rels
           [("_rels/.rels", XmlBytes Demo.top_rels);
            ("word/document.xml", Demo.body)]
           "word/theme/theme1.xml" (RawBytes "not read")
           [("word/numbering.xml", XmlBytes Demo.numbering_ok)]).
  - intros H. apply is_rels_ends_with in H. vm_compute in H. discriminate.
  - discriminate.
Defined.

Lemma attach_rels_cross_linked gpr path2rels kx file :
  attach_rels gpr path2rels (base_record kx) = Ok file ->
  cross_linked gpr path2rels kx file.
Proof.
  unfold attach_rels, cross_linked. intros H.
  destruct (gpr (base_record kx)) as [p|e]; simpl in H.
  - unfold getitem, PyDict.getitem in H. unfold dict_get.
    destruct (PyDict.get String.eqb path2rels p) as [rels|]; simpl in H;
      now injection H as <-.
  - destruct e; simpl in H; try discriminate. injection H as <-. auto.
Qed.

(** X13. In the context [get_context] returns, the record of a
    relationship entry carries, under [rels], the relationship entries of
    the descriptor that [get_path_rels] names for it, as [collect_rels]
    has them, when there is such a descriptor; when there is none, or
    [get_path_rels] raises [KeyError], the record is the tagged entry and
    nothing more. *)
Theorem nested_relationships_attached
        (qn : string -> string)
        (gpr : ExpandedAttribDict -> result string)
        (zipf : ZipFile) (ctx : Context) (path2rels : dict (list AttribDict)) :
  get_context qn gpr zipf = Ok ctx ->
  collect_rels zipf = Ok path2rels ->
  exists files,
    getitem ctx "files" = Ok (CFiles files)
    /\ Forall2 (cross_linked gpr path2rels) (entries_of path2rels) files.
Proof.
  intros H Hrels. apply get_context_Ok_inv in H.
  destruct H as (path2rels' & files & Hrels' & Hfiles & Hctx).
  assert (path2rels' = path2rels) by congruence. subst path2rels'.
  exists files. split.
  - destruct Hctx as [[-> _] | (xml & idx & _ & _ & ->)]; reflexivity.
  - rewrite flatten_loop_eq in Hfiles. simpl in Hfiles.
    apply mapM_Ok_Forall2 in Hfiles. clear - Hfiles.
    remember (entries_of path2rels) as entries eqn:E.
    clear E. revert files Hfiles.
    induction entries as [|kx entries IH]; intros files H; simpl in H;
      inversion H as [|f file fs files' Hf Hfs]; subst; constructor.
    + now apply attach_rels_cross_linked.
    + now apply IH.
Qed.

Lemma nested_relationships_attached_witness :
  exists path2rels files,
    collect_rels Demo.docx_images = Ok path2rels
    /\ Forall2 (cross_linked Demo.get_path_rels path2rels)
               (entries_of path2rels) files.
Proof.
  pose (path2rels := match collect_rels Demo.docx_images with
                     | Ok d => d
                     | Raise _ => []
                     end).
  pose (ctx := match get_context Demo.qn Demo.get_path_rels Demo.docx_images with
               | Ok c => c
               | Raise _ => []
               end).
  destruct (@nested_relationships_attached
              Demo.qn Demo.get_path_rels Demo.docx_images ctx path2rels)
    as (files & _ & Hfiles).
  - vm_compute; reflexivity.
  - vm_compute; reflexivity.
  - exists path2rels, files. split; [vm_compute; reflexivity | exact Hfiles].
Defined.

(** ** More on image extraction *)

Section ImagesMore.
Variable get_path : ExpandedAttribDict -> result string.
Variable filter_files_by_type :
  list ExpandedAttribDict -> string -> result (list ExpandedAttribDict).
Variable zipf : ZipFile.

(** What [pull_image_files] returns, and from what. *)
Lemma pull_image_files_Ok_inv context image_directory images ops :
  pull_image_files get_path filter_files_by_type zipf context image_directory
  = Ok (images, ops) ->
  exists files xs kvs,
    getitem context "files" = Ok (CFiles files)
    /\ filter_files_by_type files "image" = Ok xs
    /\ mapM (image_entry get_path zipf) xs = Ok kvs
    /\ images = dict_update [] kvs
    /\ ops = match image_directory with
             | Some d =>
                 Mkdir d
                 :: map (fun fi => WriteFile (path_join d (fst fi)) (snd fi))
                        images
             | None => []
             end.
Proof.
  unfold pull_image_files. intros H.
  destruct (getitem context "files") as [[files| |]|] eqn:Hfiles; simpl in H;
    try discriminate.
  destruct (filter_files_by_type files "image") as [xs|] eqn:Hxs; simpl in H;
    [|discriminate].
  rewrite images_loop_eq in H.
  destruct (mapM (image_entry get_path zipf) xs) as [kvs|] eqn:Hkvs; simpl in H;
    [|discriminate].
  exists files, xs, kvs.
  destruct image_directory; injection H as <- <-;
    (split; [reflexivity|]; split; [assumption|]; split; [assumption|];
     split; reflexivity).
Qed.

Lemma image_keys_no_slash xs kvs key :
  mapM (image_entry get_path zipf) xs = Ok kvs ->
  In key (keys (dict_update [] kvs)) -> no_slash key.
Proof.
  intros Hkvs Hin. apply keys_update in Hin. destruct Hin as [[]|Hin].
  apply (@image_entries_keys get_path zipf xs kvs key Hkvs) in Hin.
  destruct Hin as (x & _ & Hx). unfold target_basename in Hx.
  destruct (getitem x "Target") as [[s|]|]; simpl in Hx; try discriminate.
  injection Hx as <-. apply basename_no_slash.
Qed.
End ImagesMore.

(** X14. The keys of the mapping [pull_image_files] returns are distinct
    and hold no path separator: each is a bare file name, whatever
    directories the targets of the relationships name. *)
Theorem image_keys_are_bare_names
        (get_path : ExpandedAttribDict -> result string)
        (filter_files_by_type :
           list ExpandedAttribDict -> string -> result (list ExpandedAttribDict))
        (zipf : ZipFile) (context : Context) (image_directory : option string)
        (images : dict Bytes) (ops : list fs_op) :
  pull_image_files get_path filter_files_by_type zipf context image_directory
  = Ok (images, ops) ->
  NoDup (keys images) /\ Forall no_slash (keys images).
Proof.
  intros H. apply pull_image_files_Ok_inv in H.
  destruct H as (files & xs & kvs & _ & _ & Hkvs & -> & _). split.
  - apply NoDup_keys_update. constructor.
  - apply Forall_forall. intros key Hin.
    eapply image_keys_no_slash; eassumption.
Qed.

Lemma image_keys_are_bare_names_witness :
  NoDup (keys [("image1.png", RawBytes "png-of-the-header")])
  /\ Forall no_slash (keys [("image1.png", RawBytes "png-of-the-header")]).
Proof.
  apply (@image_keys_are_bare_names
           Demo.get_path Demo.filter_files_by_type Demo.docx_images
           Demo.context_same_basename None _ []).
  vm_compute; reflexivity.
Defined.

(** X16. When the path [get_path] gives for an image record names no
    member of the archive, and the records before it were read,
    [pull_image_files] raises [KeyError], with or without destination
    directory: it returns no partial mapping. *)
Theorem missing_image_member_raises_KeyError
        (get_path : ExpandedAttribDict -> result string)
        (filter_files_by_type :
           list ExpandedAttribDict -> string -> result (list ExpandedAttribDict))
        (zipf : ZipFile) (context : Context) (image_directory : option string)
        (files pre : list ExpandedAttribDict) (x : ExpandedAttribDict)
        (post : list ExpandedAttribDict) (key p : string) :
  getitem context "files" = Ok (CFiles files) ->
  filter_files_by_type files "image" = Ok (pre ++ x :: post) ->
  is_ok (mapM (image_entry get_path zipf) pre) = true ->
  target_basename x = Ok key ->
  get_path x = Ok p ->
  ~ In p (namelist zipf) ->
  pull_image_files get_path filter_files_by_type zipf context image_directory
  = Raise KeyError.
Proof.
  intros Hfiles Hxs Hpre Hkey Hp Hnin.
  unfold pull_image_files. rewrite Hfiles. simpl. rewrite Hxs. simpl.
  rewrite images_loop_eq.
  rewrite (@mapM_first_failure _ _ _ pre x post KeyError Hpre); [reflexivity|].
  unfold image_entry, image_bytes. rewrite Hkey, Hp. simpl.
  now rewrite (read_KeyError _ _ Hnin).
Qed.

Lemma missing_image_member_raises_KeyError_witness :
  pull_image_files Demo.get_path Demo.filter_files_by_type Demo.docx_images
                   Demo.context_missing_image (Some "out")
  = Raise KeyError.
Proof.
  apply (@missing_image_member_raises_KeyError
           Demo.get_path Demo.filter_files_by_type Demo.docx_images
           Demo.context_missing_image (Some "out")
           [Demo.image_record "rId1" "media/image1.png";
            Demo.image_record "rId9" "media/absent.png"]
           [Demo.image_record "rId1" "media/image1.png"]
           (Demo.image_record "rId9" "media/absent.png") []
           "absent.png" "word/media/absent.png").
  - reflexivity.
  - vm_compute; reflexivity.
  - vm_compute; reflexivity.
  - vm_compute; reflexivity.
  - vm_compute; reflexivity.
  - vm_compute. intuition discriminate.
Defined.

(** ** A numbering part without lists *)

(** X17. When the numbering part holds definitions that resolve and no
    [w:num] element, the context [get_context] returns has both
    numbering fields, each an empty mapping: a numbering part without
    lists is told apart from the absence of a numbering part, where
    reading the fields raises [KeyError]. *)
Theorem numbering_part_without_lists_gives_empty_fields
        (qn : string -> string)
        (gpr : ExpandedAttribDict -> result string)
        (zipf : ZipFile) (root : Element) (tbl : dict (list string))
        (ctx : Context) :
  read zipf numbering_part = Ok (XmlBytes root) ->
  abstractNumId2numFmts_of qn root = Ok tbl ->
  findall root (qn "w:num") = [] ->
  get_context qn gpr zipf = Ok ctx ->
  getitem ctx "numId2numFmts" = Ok (CNumFmts [])
  /\ getitem ctx "numId2count" = Ok (CCount []).
Proof.
  intros Hread Htbl Hnums H.
  assert (Hidx : collect_numFmts qn (XmlBytes root) = Ok []).
  { rewrite collect_numFmts_eq, Htbl. simpl. now rewrite Hnums. }
  apply get_context_Ok_inv in H.
  destruct H as (path2rels & files & _ & _
                 & [[_ Hnum] | (xml & idx & Hread' & Hidx' & ->)]).
  - rewrite Hread in Hnum. simpl in Hnum. congruence.
  - assert (xml = XmlBytes root) by congruence. subst xml.
    assert (idx = []) by congruence. subst idx. split; reflexivity.
Qed.

Lemma numbering_part_without_lists_gives_empty_fields_witness :
  exists ctx,
    get_context Demo.qn Demo.get_path_rels Demo.docx_no_lists = Ok ctx
    /\ getitem ctx "numId2numFmts" = Ok (CNumFmts [])
    /\ getitem ctx "numId2count" = Ok (CCount []).
Proof.
  eexists. split; [vm_compute; reflexivity|].
  apply (@numbering_part_without_lists_gives_empty_fields
           Demo.qn Demo.get_path_rels Demo.docx_no_lists
           Demo.numbering_no_lists [("0", ["decimal"])]).
  - vm_compute; reflexivity.
  - vm_compute; reflexivity.
  - vm_compute; reflexivity.
  - vm_compute; reflexivity.
Defined.
